(** * opencode-quota: local usage-tracking and rate-limiting core

    A shallow embedding of the fetch cache ([src/lib/cache.ts]), the local
    quota counter ([qwen-local-quota.ts]), the SQLite message store
    ([opencode-storage.ts]) and the usage aggregator ([quota-stats.ts]),
    followed by the properties the specification states about them.

    How the code is read:
    - JavaScript numbers that hold timestamps, counters and limits are
      integers, embedded as [Z]; a number read from a JSON text may be a
      fraction, and is then a rational that the code tests and truncates;
      the one computation that leaves the integers, the percentage of
      [toPercentRemaining], is done on binary64 floats, as the code does it.
    - The module variables of [cache.ts] are the fields of a state that
      every operation takes and returns. An async function is cut at its
      [await]: one definition for the code that runs when it is called, one
      for the code that runs when the awaited promise settles. [Date.now()]
      is read once per such stretch of code.
    - Code that throws returns in [Exc]; code that also reads or writes the
      outside world (files, the SQLite connection) runs in [Eff], on a
      world that records the calls made. The message store is given
      twice: on a driver that fails nothing ([MessageStore]), and on one
      that may fail to open the database or to run a statement
      ([FallibleStore]).
    - What the sources import but do not contain ([format-utils.ts],
      [path-pick.ts], [opencode-runtime-paths.ts], [quota-stats.ts]) is
      either a parameter or modelled from the specification, and says so. *)

From Stdlib Require Import ZArith Lia Floats Uint63.
From Stdlib Require QArith Qround.
From stdpp Require Import gmap strings list.

Open Scope Z_scope.

(** ** Errors thrown by the code *)

Inductive JsError :=
  | RangeError (what : string)
  | SyntaxError (what : string)
  | SystemError (code : option string) (what : string)
  | SqliteError (what : string)
  | SessionNotFoundError (sessionID checkedPath : string).

(** ** JavaScript numbers, as far as [clampPercent] needs them *)

Module JsNumber.

(** The Number value of an integer: the nearest binary64 float. *)
Definition of_Z (z : Z) : float := SF2Prim (binary_normalize prec emax z 0 false).

Definition isFinite (x : float) : bool :=
  match Prim2SF x with
  | S754_zero _ | S754_finite _ _ _ => true
  | _ => false
  end.

(** [Math.round]: the integer closest to [x], ties towards +infinity,
    that is the floor of [x + 1/2] computed exactly on the value
    [m * 2^e] of the float. Only called on finite floats. *)
Definition Math_round (x : float) : Z :=
  match Prim2SF x with
  | S754_finite s m e =>
      let v := if s then Z.neg m else Z.pos m in
      if 0 <=? e then v * 2 ^ e
      else (2 * v + 2 ^ (- e)) / 2 ^ (1 - e)
  | _ => 0
  end.

(** Modelled from the spec: [clampPercent] of [format-utils.ts], which is
    not among the sources: [clamp(0, 100, round(n))]. It is written the way
    [firmware.ts] writes its own copy of the function:
    [if (!Number.isFinite(n)) return 0;
     return Math.max(0, Math.min(100, Math.round(n)))]. *)
Definition clampPercent (n : float) : Z :=
  if negb (isFinite n) then 0
  else Z.max 0 (Z.min 100 (Math_round n)).

(** A finite number that need not be an integer, as the rational it is
    (every finite binary64 value is one). *)
Definition Fraction : Type := QArith_base.Q.

(** [x >= 0] and [x > 0]. *)
Definition geZero (x : Fraction) : bool :=
  QArith_base.Qle_bool (QArith_base.inject_Z 0) x.
Definition gtZero (x : Fraction) : bool :=
  negb (QArith_base.Qle_bool x (QArith_base.inject_Z 0)).

(** [Math.trunc]: the integer part, rounding towards zero. *)
Definition Math_trunc (x : Fraction) : Z :=
  if geZero x then Qround.Qfloor x else Qround.Qceiling x.

End JsNumber.

(** ** The [Date] built-in, after the time-value algorithms of ECMA-262 *)

Module JsDate.

Definition msPerDay : Z := 86400000.

Definition Day (t : Z) : Z := t / msPerDay.
Definition TimeWithinDay (t : Z) : Z := t mod msPerDay.

Definition DayFromYear (y : Z) : Z :=
  365 * (y - 1970) + (y - 1969) / 4 - (y - 1901) / 100 + (y - 1601) / 400.

Definition isLeapYear (y : Z) : bool :=
  (y mod 4 =? 0) && (negb (y mod 100 =? 0) || (y mod 400 =? 0)).

(** The largest [y] with [DayFromYear y <= Day t]: an estimate from the
    mean length of a year, corrected by at most one. *)
Definition YearFromDay (d : Z) : Z :=
  let y := 1970 + (400 * d) / 146097 in
  if d <? DayFromYear y then y - 1
  else if DayFromYear (y + 1) <=? d then y + 1
  else y.

Definition YearFromTime (t : Z) : Z := YearFromDay (Day t).

Definition InLeapYear (t : Z) : Z := if isLeapYear (YearFromTime t) then 1 else 0.

Definition DayWithinYear (t : Z) : Z := Day t - DayFromYear (YearFromTime t).

(** Day number, within its year, of the first day of month [m] (0-11). *)
Definition monthStart (m leap : Z) : Z :=
  match m with
  | 0 => 0 | 1 => 31 | 2 => 59 + leap | 3 => 90 + leap | 4 => 120 + leap
  | 5 => 151 + leap | 6 => 181 + leap | 7 => 212 + leap | 8 => 243 + leap
  | 9 => 273 + leap | 10 => 304 + leap | _ => 334 + leap
  end.

Definition monthOfDayWithinYear (d leap : Z) : Z :=
  if d <? 31 then 0
  else if d <? 59 + leap then 1
  else if d <? 90 + leap then 2
  else if d <? 120 + leap then 3
  else if d <? 151 + leap then 4
  else if d <? 181 + leap then 5
  else if d <? 212 + leap then 6
  else if d <? 243 + leap then 7
  else if d <? 273 + leap then 8
  else if d <? 304 + leap then 9
  else if d <? 334 + leap then 10
  else 11.

Definition MonthFromTime (t : Z) : Z :=
  monthOfDayWithinYear (DayWithinYear t) (InLeapYear t).

Definition DateFromTime (t : Z) : Z :=
  DayWithinYear t - monthStart (MonthFromTime t) (InLeapYear t) + 1.

Definition HourFromTime (t : Z) : Z := (t / 3600000) mod 24.
Definition MinFromTime (t : Z) : Z := (t / 60000) mod 60.
Definition SecFromTime (t : Z) : Z := (t / 1000) mod 60.
Definition msFromTime (t : Z) : Z := t mod 1000.

Definition MakeTime (hour min sec ms : Z) : Z :=
  hour * 3600000 + min * 60000 + sec * 1000 + ms.

(** [MakeDay]: months beyond 0-11 carry into the year, days beyond the
    month carry into the following months. *)
Definition MakeDay (year month date : Z) : Z :=
  let ym := year + month / 12 in
  let mn := month mod 12 in
  DayFromYear ym + monthStart mn (if isLeapYear ym then 1 else 0) + date - 1.

Definition MakeDate (day time : Z) : Z := day * msPerDay + time.

(** [TimeClip]: a time value is at most 8.64e15 ms away from the epoch;
    anything else is the invalid date ([NaN]). *)
Definition maxTime : Z := 8640000000000000.

Definition validTime (t : Z) : Prop := Z.abs t ≤ maxTime.

Definition TimeClip (t : Z) : option Z :=
  if Z.abs t <=? maxTime then Some t else None.

(** [new Date(tsMs)]. *)
Definition ofNumber (tsMs : Z) : option Z := TimeClip tsMs.

(** [Date.UTC(year, month, date, 0, 0, 0)]; years 0-99 mean 1900-1999. *)
Definition UTC (year month date hours minutes seconds : Z) : option Z :=
  let yr := if (0 <=? year) && (year <=? 99) then 1900 + year else year in
  TimeClip (MakeDate (MakeDay yr month date) (MakeTime hours minutes seconds 0)).

Definition digit (n : Z) : Ascii.ascii := Ascii.ascii_of_N (48 + Z.to_N (n mod 10)).

(** The last [width] decimal digits of [n], zero-padded. *)
Fixpoint pad (width : nat) (n : Z) : string :=
  match width with
  | O => EmptyString
  | S w => pad w (n / 10) +:+ String (digit n) EmptyString
  end.

Definition yearString (y : Z) : string :=
  if (0 <=? y) && (y <=? 9999) then pad 4 y
  else (if y <? 0 then "-" else "+") +:+ pad 6 (Z.abs y).

(** [toISOString] of a valid date. *)
Definition isoString (t : Z) : string :=
  yearString (YearFromTime t) +:+ "-" +:+ pad 2 (MonthFromTime t + 1) +:+ "-" +:+
  pad 2 (DateFromTime t) +:+ "T" +:+ pad 2 (HourFromTime t) +:+ ":" +:+
  pad 2 (MinFromTime t) +:+ ":" +:+ pad 2 (SecFromTime t) +:+ "." +:+
  pad 3 (msFromTime t) +:+ "Z".

(** [date.toISOString()]: throws a [RangeError] on the invalid date. *)
Definition toISOString (date : option Z) : JsError + string :=
  match date with
  | Some t => inr (isoString t)
  | None => inl (RangeError "Invalid time value")
  end.

End JsDate.

(** ** Exceptions and effects *)

(** A computation that may throw: [inl e] is [throw e]. *)
Definition Exc (A : Type) : Type := JsError + A.

#[global] Instance exc_ret : MRet Exc := λ A a, inr a.
#[global] Instance exc_bind : MBind Exc := λ A B f x,
  match x with inl e => inl e | inr a => f a end.

(** A computation on a world [W] (a file system, a store) that may throw. *)
Definition Eff (W A : Type) : Type := W → Exc A * W.

#[global] Instance eff_ret {W} : MRet (Eff W) := λ A a w, (inr a, w).
#[global] Instance eff_bind {W} : MBind (Eff W) := λ A B f x w,
  match x w with
  | (inl e, w') => (inl e, w')
  | (inr a, w') => f a w'
  end.

Definition throw {W A} (e : JsError) : Eff W A := λ w, (inl e, w).
Definition lift {W A} (x : Exc A) : Eff W A := λ w, (x, w).

(** [try { body } catch (err) { handler }]. *)
Definition try_catch {W A} (body : Eff W A) (handler : JsError → Eff W A) : Eff W A :=
  λ w, match body w with
       | (inl e, w') => handler e w'
       | r => r
       end.

(** [try { body } finally { cleanup }], for a cleanup that does not throw. *)
Definition try_finally {W A} (body : Eff W A) (cleanup : W → W) : Eff W A :=
  λ w, let '(r, w') := body w in (r, cleanup w').

(** ** JSON values *)

Module Json.

(** The document that a JSON text writes down: the members of an object
    in the order of the text, a key possibly more than once. A number is
    [JNum n] when it is the integer [n] and [JFrac q] otherwise ([JFrac]
    of an integer is read like [JNum] of it by every function below); a
    literal beyond the range of binary64, which [JSON.parse] reads as an
    infinity, fails every [Number.isFinite] below and is as good as
    [JNull] there. A string is a sequence of code units below 256, so
    that [String.length] is [.length]. *)
#[warnings="-register-all"]
Inductive value :=
  | JNull
  | JBool (b : bool)
  | JNum (n : Z)
  | JFrac (q : JsNumber.Fraction)
  | JStr (s : string)
  | JArr (items : list value)
  | JObj (fields : list (string * value)).

(** [v.key] (or [v?.key]) on what [JSON.parse] returns, for a key that is
    no built-in property: [undefined] is [None], and of the members that
    share a key the object keeps the last. *)
Definition get (key : string) (v : value) : option value :=
  match v with
  | JObj fields => snd <$> List.find (λ kv, String.eqb kv.1 key) (rev fields)
  | _ => None
  end.

(** [typeof v === "number" && Number.isFinite(v)], with the number. *)
Definition finiteNumber (v : value) : option JsNumber.Fraction :=
  match v with
  | JNum n => Some (QArith_base.inject_Z n)
  | JFrac q => Some q
  | _ => None
  end.

(** A text: [NotJson raw] is one that no JSON parser accepts, neither
    [JSON.parse] nor SQLite's; [Doc v] is one that writes down [v] in
    plain JSON. (Texts that only one of the two parsers accepts, such as
    the JSON5 that SQLite reads from version 3.42 on, are not among
    them.) *)
Inductive text :=
  | NotJson (raw : string)
  | Doc (v : value).

Definition wellFormed (data : text) : Prop :=
  match data with Doc _ => True | NotJson _ => False end.

(** [JSON.parse]. *)
Definition parse (t : text) : Exc value :=
  match t with
  | NotJson _ => inl (SyntaxError "not valid JSON")
  | Doc v => inr v
  end.

End Json.

(** ** [qwen-local-quota.ts] *)

Module LocalQuota.
Import Json.

Definition QWEN_LOCAL_QUOTA_STATE_VERSION : Z := 1.
Definition QWEN_DAILY_LIMIT : Z := 1000.
Definition QWEN_RPM_LIMIT : Z := 60.
Definition RPM_WINDOW_MS : Z := 60000.
Definition MAX_RECENT_TIMESTAMPS : nat := 300.

Record QwenLocalQuotaStateFileV1 := mkQwenState {
  version : Z;
  utcDay : string;
  dayCount : Z;
  recent : list Z;
  updatedAt : Z;
}.

Record DayQuota := mkDayQuota {
  day_used : Z; day_limit : Z; day_percentRemaining : Z; day_resetTimeIso : string }.
Record RpmQuota := mkRpmQuota {
  rpm_used : Z; rpm_limit : Z; rpm_percentRemaining : Z;
  rpm_resetTimeIso : option string }.
Record QwenComputedQuota := mkQuota { day : DayQuota; rpm : RpmQuota }.

(** [xs.slice(-n)]: the last [n] elements. *)
Definition slice_last {A} (n : nat) (xs : list A) : list A :=
  drop (length xs - n) xs.

(** [new Date(tsMs).toISOString().slice(0, 10)]. *)
Definition utcDayKey (tsMs : Z) : Exc string :=
  iso ← JsDate.toISOString (JsDate.ofNumber tsMs);
  mret (String.substring 0 10 iso).

Definition nextUtcMidnightIso (tsMs : Z) : Exc string :=
  match JsDate.ofNumber tsMs with
  | None => JsDate.toISOString None
  | Some now =>
      let nextMidnight :=
        JsDate.UTC (JsDate.YearFromTime now) (JsDate.MonthFromTime now)
                   (JsDate.DateFromTime now + 1) 0 0 0 in
      JsDate.toISOString (nextMidnight ≫= JsDate.ofNumber)
  end.

Definition defaultState (nowMs : Z) : Exc QwenLocalQuotaStateFileV1 :=
  today ← utcDayKey nowMs;
  mret {| version := QWEN_LOCAL_QUOTA_STATE_VERSION; utcDay := today;
          dayCount := 0; recent := []; updatedAt := nowMs |}.

(** [typeof x === "number" && Number.isFinite(x) && x > 0], and then
    [Math.trunc(x)]: the test comes before the truncation. *)
Definition positiveNumber (x : value) : option Z :=
  match x with
  | JNum n => if 0 <? n then Some n else None
  | JFrac q => if JsNumber.gtZero q then Some (JsNumber.Math_trunc q) else None
  | _ => None
  end.

Definition normalizeState (raw : value) (nowMs : Z) : Exc QwenLocalQuotaStateFileV1 :=
  match raw with
  | JNull | JBool _ | JNum _ | JFrac _ | JStr _ => defaultState nowMs
  | JArr _ | JObj _ =>
      let recentRaw := match get "recent" raw with Some (JArr xs) => xs | _ => [] end in
      let recent := omap positiveNumber recentRaw in
      day ← match get "utcDay" raw with
            | Some (JStr d) => if (String.length d =? 10)%nat then mret d else utcDayKey nowMs
            | _ => utcDayKey nowMs
            end;
      mret {| version := QWEN_LOCAL_QUOTA_STATE_VERSION;
              utcDay := day;
              dayCount := match get "dayCount" raw with
                          | Some (JNum n) => if 0 <=? n then n else 0
                          | Some (JFrac q) =>
                              if JsNumber.geZero q then JsNumber.Math_trunc q else 0
                          | _ => 0
                          end;
              recent := recent;
              updatedAt := default nowMs (get "updatedAt" raw ≫= positiveNumber) |}
  end.

Definition applyUtcResetAndPrune (state : QwenLocalQuotaStateFileV1) (nowMs : Z)
  : Exc QwenLocalQuotaStateFileV1 :=
  today ← utcDayKey nowMs;
  let recentFloor := nowMs - RPM_WINDOW_MS in
  let recent :=
    slice_last MAX_RECENT_TIMESTAMPS
      (List.filter (λ ts, (recentFloor <=? ts) && (ts <=? nowMs)) (recent state)) in
  if negb (String.eqb (utcDay state) today) then
    mret {| version := QWEN_LOCAL_QUOTA_STATE_VERSION; utcDay := today;
            dayCount := 0; recent := recent; updatedAt := nowMs |}
  else
    mret {| version := QWEN_LOCAL_QUOTA_STATE_VERSION; utcDay := today;
            dayCount := dayCount state; recent := recent; updatedAt := nowMs |}.

(** [((limit - used) / limit) * 100] is a binary64 computation. *)
Definition toPercentRemaining (used limit : Z) : Z :=
  if limit <=? 0 then 0
  else
    let remaining :=
      PrimFloat.mul
        (PrimFloat.div (PrimFloat.sub (JsNumber.of_Z limit) (JsNumber.of_Z used))
                       (JsNumber.of_Z limit))
        (JsNumber.of_Z 100) in
    JsNumber.clampPercent remaining.

(** [Math.min(...xs)] of a non-empty array. *)
Definition Math_min (x : Z) (xs : list Z) : Z := foldr Z.min x xs.

Definition computeQwenQuota (state0 : QwenLocalQuotaStateFileV1)
    (nowMs dayLimit rpmLimit : Z) : Exc QwenComputedQuota :=
  state ← applyUtcResetAndPrune state0 nowMs;
  let dayUsed := Z.max 0 (dayCount state) in
  let rpmUsed := Z.of_nat (length (recent state)) in
  let oldestRecent :=
    match recent state with
    | [] => None
    | x :: xs => Some (Math_min x xs)
    end in
  dayReset ← nextUtcMidnightIso nowMs;
  rpmReset ← match oldestRecent with
             | Some oldest =>
                 iso ← JsDate.toISOString (JsDate.ofNumber (oldest + RPM_WINDOW_MS));
                 mret (Some iso)
             | None => mret None
             end;
  mret {| day := {| day_used := dayUsed; day_limit := dayLimit;
                    day_percentRemaining := toPercentRemaining dayUsed dayLimit;
                    day_resetTimeIso := dayReset |};
          rpm := {| rpm_used := rpmUsed; rpm_limit := rpmLimit;
                    rpm_percentRemaining := toPercentRemaining rpmUsed rpmLimit;
                    rpm_resetTimeIso := rpmReset |} |}.

(** *** The file system ([fs/promises]) *)

Inductive FsOp := OpReadFile | OpMkdir | OpWriteFile | OpRename | OpRm.

#[global] Instance FsOp_eq_dec : EqDecision FsOp.
Proof. solve_decision. Defined.

Inductive FsCall :=
  | CallReadFile (path : string)
  | CallMkdir (dir : string)
  | CallWriteFile (path : string) (content : text)
  | CallRename (src dst : string)
  | CallRm (target : string).

Definition isRename (c : FsCall) : bool :=
  match c with CallRename _ _ => true | _ => false end.

(** The files, the failures the platform has in store for the coming
    calls of each primitive ([Some e]: the call fails with [e] and changes
    nothing; [None] or an exhausted list: the call takes its normal
    course), and the calls made so far, oldest first. *)
Record Fs := mkFs {
  files : gmap string text;
  faults : FsOp → list (option JsError);
  calls : list FsCall;
}.

(** The failures still in store once a call of [op] has used up its own. *)
Definition consumed (op : FsOp) (fs : Fs) : FsOp → list (option JsError) :=
  λ o, if decide (o = op) then tail (faults fs o) else faults fs o.

Definition primitive {A} (op : FsOp) (call : FsCall)
    (normal : gmap string text → Exc (A * gmap string text)) : Eff Fs A :=
  λ fs,
    let rest := consumed op fs in
    let logged := calls fs ++ [call] in
    match head (faults fs op) with
    | Some (Some err) => (inl err, mkFs (files fs) rest logged)
    | _ =>
        match normal (files fs) with
        | inl err => (inl err, mkFs (files fs) rest logged)
        | inr (a, files') => (inr a, mkFs files' rest logged)
        end
    end.

(** The platform lets the next call of [op] take its normal course. *)
Definition unhindered (op : FsOp) (fs : Fs) : Prop :=
  ∀ err, head (faults fs op) ≠ Some (Some err).

(** The platform fails the next call of [op] with [err]. *)
Definition failsNext (op : FsOp) (err : JsError) (fs : Fs) : Prop :=
  head (faults fs op) = Some (Some err).

(** The platform lets the call of [op] after the next one succeed. *)
Definition unhinderedAfter (op : FsOp) (fs : Fs) : Prop :=
  ∀ err, head (tail (faults fs op)) ≠ Some (Some err).

Definition failsAfter (op : FsOp) (err : JsError) (fs : Fs) : Prop :=
  head (tail (faults fs op)) = Some (Some err).

Definition ENOENT (path : string) : JsError :=
  SystemError (Some "ENOENT") ("no such file or directory: " +:+ path).

Definition readFile (path : string) : Eff Fs text :=
  primitive OpReadFile (CallReadFile path) (λ fsys,
    match fsys !! path with
    | Some content => inr (content, fsys)
    | None => inl (ENOENT path)
    end).

Definition mkdir (dir : string) : Eff Fs unit :=
  primitive OpMkdir (CallMkdir dir) (λ fsys, inr (tt, fsys)).

Definition writeFile (path : string) (content : text) : Eff Fs unit :=
  primitive OpWriteFile (CallWriteFile path content) (λ fsys,
    inr (tt, <[path := content]> fsys)).

Definition rename (src dst : string) : Eff Fs unit :=
  primitive OpRename (CallRename src dst) (λ fsys,
    match fsys !! src with
    | Some content => inr (tt, <[dst := content]> (delete src fsys))
    | None => inl (ENOENT src)
    end).

(** [rm(target, { force: true })]. *)
Definition rm (target : string) : Eff Fs unit :=
  primitive OpRm (CallRm target) (λ fsys, inr (tt, delete target fsys)).

(** [JSON.stringify(state, null, 2)], up to [JSON.parse]. *)
Definition stringify (state : QwenLocalQuotaStateFileV1) : text :=
  Doc (JObj [("version", JNum (version state));
             ("utcDay", JStr (utcDay state));
             ("dayCount", JNum (dayCount state));
             ("recent", JArr (JNum <$> recent state));
             ("updatedAt", JNum (updatedAt state))]).

Definition readStateFromDisk (path : string) (nowMs : Z)
  : Eff Fs QwenLocalQuotaStateFileV1 :=
  try_catch
    (raw ← readFile path;
     lift (parse raw ≫= λ v, normalizeState v nowMs))
    (λ _, lift (defaultState nowMs)).

(** [String(err.code)] when [err] has a [code], and [""] otherwise. *)
Definition errorCode (err : JsError) : string :=
  match err with
  | SystemError (Some code) _ => code
  | _ => ""
  end.

Definition shouldRetryAsReplace (code : string) : bool :=
  String.eqb code "EPERM" || String.eqb code "EEXIST" ||
  String.eqb code "EACCES" || String.eqb code "ENOTEMPTY".

Definition safeRm (target : string) : Eff Fs unit :=
  try_catch (rm target) (λ _, mret tt).

Definition slash : Ascii.ascii := Ascii.ascii_of_nat 47.

(** [dirname] of [path]: what comes before the last ["/"]. *)
Fixpoint beforeLastSlash (path : string) : option string :=
  match path with
  | EmptyString => None
  | String c rest =>
      match beforeLastSlash rest with
      | Some dir => Some (String c dir)
      | None => if Ascii.eqb c slash then Some EmptyString else None
      end
  end.

Definition dirname (path : string) : string :=
  match beforeLastSlash path with
  | Some EmptyString => "/"
  | Some dir => dir
  | None => "."
  end.

(** [join(stateDir, "opencode-quota", "qwen-local-quota.json")], for the
    [stateDir] of [getOpencodeRuntimeDirs()]. *)
Definition getQwenLocalQuotaPath (stateDir : string) : string :=
  stateDir +:+ "/opencode-quota/qwen-local-quota.json".

(** The temporary name; [nonce] stands for the process id, clock reading
    and random digits that the code appends. *)
Definition tmpPath (path nonce : string) : string := path +:+ ".tmp-" +:+ nonce.

Definition writeStateToDisk (path nonce : string)
    (state : QwenLocalQuotaStateFileV1) : Eff Fs unit :=
  let dir := dirname path in
  let tmp := tmpPath path nonce in
  mkdir dir ;;
  writeFile tmp (stringify state) ;;
  try_catch (rename tmp path) (λ err,
    let code := errorCode err in
    if negb (shouldRetryAsReplace code) then
      safeRm tmp ;; throw err
    else
      safeRm path ;; rename tmp path).

Definition readQwenLocalQuotaState (stateDir : string) (nowMs : Z)
  : Eff Fs QwenLocalQuotaStateFileV1 :=
  state ← readStateFromDisk (getQwenLocalQuotaPath stateDir) nowMs;
  lift (applyUtcResetAndPrune state nowMs).

Definition recordQwenCompletion (stateDir nonce : string) (nowMs : Z)
  : Eff Fs QwenLocalQuotaStateFileV1 :=
  loaded ← readStateFromDisk (getQwenLocalQuotaPath stateDir) nowMs;
  state ← lift (applyUtcResetAndPrune loaded nowMs);
  let next :=
    {| version := version state;
       utcDay := utcDay state;
       dayCount := dayCount state + 1;
       recent := slice_last MAX_RECENT_TIMESTAMPS (recent state ++ [nowMs]);
       updatedAt := nowMs |} in
  writeStateToDisk (getQwenLocalQuotaPath stateDir) nonce next ;;
  mret next.

(** *** The specification's own words, for comparison *)

(** The rolling window [[nowMs - windowMs, nowMs]]. *)
Definition inWindow (nowMs ts : Z) : Prop :=
  nowMs - RPM_WINDOW_MS ≤ ts ≤ nowMs.

#[global] Instance inWindow_dec nowMs ts : Decision (inWindow nowMs ts).
Proof. unfold inWindow. apply _. Defined.

(** The failure codes after which the move is retried. *)
Definition retryableCodes : list string := ["EPERM"; "EACCES"; "EEXIST"; "ENOTEMPTY"].

(** The state that [recordQwenCompletion] means to persist. *)
Definition incremented (state : QwenLocalQuotaStateFileV1) (nowMs : Z)
  : QwenLocalQuotaStateFileV1 :=
  {| version := version state; utcDay := utcDay state;
     dayCount := dayCount state + 1;
     recent := slice_last MAX_RECENT_TIMESTAMPS (recent state ++ [nowMs]);
     updatedAt := nowMs |}.

(** The integer nearest to [a / b] for [b > 0], halves rounded up. *)
Definition roundDiv (a b : Z) : Z := (2 * a + b) / (2 * b).

(** [clamp(0, 100, round(100 * (limit - used) / limit))], and 0 when
    [limit <= 0]: the percentage as the specification writes it, in
    exact arithmetic. *)
Definition percentRemaining_spec (used limit : Z) : Z :=
  if limit <=? 0 then 0
  else Z.max 0 (Z.min 100 (roundDiv (100 * (limit - used)) limit)).

(** The scenario of the test "replaces destination when rename fails on
    existing file": a state file with [dayCount = 3], and a platform that
    fails the first [rename] with EPERM. *)
Definition exampleFs : Fs :=
  mkFs {[ getQwenLocalQuotaPath "/state" :=
            stringify (mkQwenState 1 "2026-02-24" 3 [1771934380000] 1771934380000) ]}
       (λ op, match op with
              | OpRename => [Some (SystemError (Some "EPERM") "destination exists")]
              | _ => []
              end)
       [].

End LocalQuota.

(** ** [src/lib/cache.ts] *)

Module FetchCache.

Record CachedToast := mkCachedToast { message : string; timestamp : Z }.

(** A promise is known by its handle; the table below records how each
    one has settled. *)
Inductive Settlement :=
  | Pending
  | Fulfilled (value : option string)
  | Rejected (reason : string).

(** The three module variables of [cache.ts], the promises created so
    far, and a counter of the invocations of [fetchFn]. *)
Record State := mkState {
  cachedToast : option CachedToast;
  inFlightPromise : option nat;
  lastFetchTime : Z;
  promises : gmap nat Settlement;
  nextPromise : nat;
  fetchCalls : nat;
}.

Definition initial : State :=
  {| cachedToast := None; inFlightPromise := None; lastFetchTime := 0;
     promises := ∅; nextPromise := 0%nat; fetchCalls := 0%nat |}.

(** What [fetchFn] resolves to: [{ message, cache? }]. *)
Record FetchOut := mkFetchOut { out_message : option string; out_cache : option bool }.

Inductive FetchSettle :=
  | Resolves (out : FetchOut)
  | Rejects (reason : string).

(** What a call of the async function hands back when its synchronous
    part ends: a value, or the shared promise it returned. *)
Inductive CallResult :=
  | Returns (value : option string)
  | Awaits (p : nat).

(** Every operation takes the reading [now] of [Date.now()] for the
    synchronous stretch of code it models. *)

Definition getCachedToast (now minIntervalMs : Z) (s : State) : option string * State :=
  match cachedToast s with
  | None => (None, s)
  | Some c =>
      let age := now - timestamp c in
      if age <? minIntervalMs then (Some (message c), s) else (None, s)
  end.

Definition shouldFetch (now minIntervalMs : Z) (s : State) : bool * State :=
  (minIntervalMs <=? now - lastFetchTime s, s).

(** Lines 78-134 up to the first [await]: the cache check, the in-flight
    check, the throttle check, and the start of a fetch. [fetchFn] is
    called inside the async arrow before control returns; it is an async
    function, as its type says and as [getOrFetch] and the plugin pass it:
    its failure is the rejection of the promise it returns. *)
Definition getOrFetchWithCacheControl (now minIntervalMs : Z) (s : State)
  : CallResult * State :=
  let '(cached, s) := getCachedToast now minIntervalMs s in
  match cached with
  | Some m => (Returns (Some m), s)
  | None =>
      match inFlightPromise s with
      | Some p => (Awaits p, s)
      | None =>
          let '(go, s) := shouldFetch now minIntervalMs s in
          if negb go then (Returns (message <$> cachedToast s), s)
          else
            let p := nextPromise s in
            (Awaits p,
             {| cachedToast := cachedToast s;
                inFlightPromise := Some p;
                lastFetchTime := now;
                promises := <[p := Pending]> (promises s);
                nextPromise := S p;
                fetchCalls := S (fetchCalls s) |})
      end
  end.

(** [getOrFetch] wraps the result of [fetchFn] as [{ message, cache: true }];
    its synchronous part is that of [getOrFetchWithCacheControl]. *)
Definition getOrFetch := getOrFetchWithCacheControl.

Definition wrapped (message : option string) : FetchOut :=
  {| out_message := message; out_cache := Some true |}.

(** Lines 104-130: the rest of the async arrow, run when the promise of
    [fetchFn] settles; [p] is the promise of the arrow itself. *)
Definition fetchSettled (p : nat) (r : FetchSettle) (now : Z) (s : State) : State :=
  let '(settled, cached', last') :=
    match r with
    | Resolves out =>
        let result := out_message out in
        let cache := default true (out_cache out) in
        match result with
        | None => (Fulfilled None, cachedToast s, 0)
        | Some msg =>
            if negb cache then (Fulfilled (Some msg), cachedToast s, 0)
            else (Fulfilled (Some msg),
                  Some {| message := msg; timestamp := now |},
                  lastFetchTime s)
        end
    | Rejects e => (Rejected e, cachedToast s, lastFetchTime s)
    end in
  {| cachedToast := cached';
     inFlightPromise := None;
     lastFetchTime := last';
     promises := <[p := settled]> (promises s);
     nextPromise := nextPromise s;
     fetchCalls := fetchCalls s |}.

Definition clearCache (s : State) : State :=
  {| cachedToast := None; inFlightPromise := None; lastFetchTime := 0;
     promises := promises s; nextPromise := nextPromise s;
     fetchCalls := fetchCalls s |}.

Definition updateCache (msg : string) (now : Z) (s : State) : State :=
  {| cachedToast := Some {| message := msg; timestamp := now |};
     inFlightPromise := inFlightPromise s;
     lastFetchTime := lastFetchTime s;
     promises := promises s; nextPromise := nextPromise s;
     fetchCalls := fetchCalls s |}.

(** What a caller that awaits the result of its call observes. *)
Definition resolution (s : State) (r : CallResult) : Settlement :=
  match r with
  | Returns v => Fulfilled v
  | Awaits p => default Pending (promises s !! p)
  end.

(** How the promise of the async arrow settles for an outcome of
    [fetchFn]: with [out.message], or with the rejection. *)
Definition settlement_of (r : FetchSettle) : Settlement :=
  match r with
  | Resolves out => Fulfilled (out_message out)
  | Rejects e => Rejected e
  end.

(** A run of callers, one after the other, each at its own clock
    reading and all with the same interval. *)
Fixpoint callers (minIntervalMs : Z) (times : list Z) (s : State)
  : list CallResult * State :=
  match times with
  | [] => ([], s)
  | t :: times =>
      let '(r, s) := getOrFetchWithCacheControl t minIntervalMs s in
      let '(rs, s) := callers minIntervalMs times s in
      (r :: rs, s)
  end.

End FetchCache.

(** ** [opencode-storage.ts]: the SQLite message store *)

Module MessageStore.
Import Json.

Record MessageRow := mkMessageRow {
  row_id : string;
  row_session_id : string;
  row_time_created : Z;
  row_time_updated : option Z;
  row_data : text;
}.

Record SessionRow := mkSessionRow {
  srow_id : string;
  srow_title : option string;
  srow_parent_id : option string;
  srow_time_created : Z;
  srow_time_updated : Z;
}.

(** The tables ["session"] and ["message"], in insertion order. *)
Record Database := mkDatabase {
  session : list SessionRow;
  message : list MessageRow;
}.

(** The host of the plugin: the path [getOpenCodeDbPath()] comes up with
    ([pickFirstExistingPath] over the candidate directories, neither of
    which is modelled further), the files that exist, the database
    behind a path, and whether the SQLite build has the JSON functions. *)
Record Host := mkHost {
  dbPathLookup : string;
  existsSync : string → bool;
  databaseAt : string → Database;
  hasJsonFunctions : bool;
}.

Record OpenCodeMessage := mkOpenCodeMessage {
  id : string;
  sessionID : string;
  role : string;
  providerID : option string;
  modelID : option string;
  tokens : option value;
  cost : option JsNumber.Fraction;
  time_created : Z;
  time_completed : option JsNumber.Fraction;
  agent : option string;
  mode : option string;
}.

Record OpenCodeDbStats := mkStats {
  dbPath : string;
  sessionCount : Z;
  messageCount : Z;
  assistantMessageCount : Z;
}.

(** The statements the module sends to SQLite. *)
Inductive Sql :=
  | SqlCountSessions
  | SqlCountMessages
  | SqlJsonCanary
  | SqlCountAssistantByJsonExtract
  | SqlSelectData
  | SqlSessionExists (sessionID : string)
  | SqlSelectMessages (sessionID : option string) (sinceMs untilMs : option Z).

(** What reaches the outside: path lookups and file probes, and the
    traffic on a connection. *)
Inductive StoreIO :=
  | IoDbPathLookup
  | IoExistsSync (path : string)
  | IoOpen (path : string)
  | IoQuery (sql : Sql)
  | IoClose.

Definition Store (A : Type) : Type := Eff (list StoreIO) A.

Definition io (ev : StoreIO) : Store unit := λ tr, (inr (), tr ++ [ev]).

Definition safeJsonParse (raw : text) : option value :=
  match parse raw with inr v => Some v | inl _ => None end.

Definition normalizeNumber (n : option value) : option JsNumber.Fraction :=
  n ≫= finiteNumber.

Definition normalizeString (v : option value) : option string :=
  match v with Some (JStr x) => Some x | _ => None end.

(** [!payload || typeof payload !== "object"] fails for objects and
    arrays only. *)
Definition isObject (v : value) : bool :=
  match v with JObj _ | JArr _ => true | _ => false end.

Definition mapRowToOpenCodeMessage (row : MessageRow) : option OpenCodeMessage :=
  match safeJsonParse (row_data row) with
  | None => None
  | Some payload =>
      if negb (isObject payload) then None
      else
        Some {| id := row_id row;
                sessionID := row_session_id row;
                role := default "unknown" (normalizeString (get "role" payload));
                providerID := normalizeString (get "providerID" payload);
                modelID := normalizeString (get "modelID" payload);
                tokens := get "tokens" payload;
                cost := normalizeNumber (get "cost" payload);
                time_created := row_time_created row;
                time_completed :=
                  normalizeNumber (get "time" payload ≫= get "completed");
                agent := normalizeString (get "agent" payload);
                mode := normalizeString (get "mode" payload) |}
  end.

Definition getOpenCodeDbPath (h : Host) : Store string :=
  io IoDbPathLookup ;; mret (dbPathLookup h).

(** [openDbOrNull]: [None] when the path is empty or names no file. *)
Definition openDbOrNull (h : Host) : Store (option string) :=
  path ← getOpenCodeDbPath h;
  if String.eqb path "" then mret None
  else
    io (IoExistsSync path) ;;
    if negb (existsSync h path) then mret None else mret (Some path).

Definition validateSessionIdOrThrow (sessionID : string) : Store unit :=
  if negb (String.prefix "ses_" sessionID)
  then throw (SessionNotFoundError sessionID "(invalid session ID format)")
  else mret ().

(** *** What SQLite answers *)

(** [ORDER BY time_created ASC, id ASC]. *)
Definition rowLe (a b : MessageRow) : bool :=
  (row_time_created a <? row_time_created b) ||
  ((row_time_created a =? row_time_created b) && String.leb (row_id a) (row_id b)).

Fixpoint insertRow (r : MessageRow) (rs : list MessageRow) : list MessageRow :=
  match rs with
  | [] => [r]
  | r' :: rs' => if rowLe r r' then r :: rs else r' :: insertRow r rs'
  end.

Definition orderRows (rs : list MessageRow) : list MessageRow :=
  foldr insertRow [] rs.

Definition rowSelected (sessionID : option string) (sinceMs untilMs : option Z)
    (r : MessageRow) : bool :=
  match sessionID with Some sid => String.eqb (row_session_id r) sid | None => true end &&
  match sinceMs with Some t => t <=? row_time_created r | None => true end &&
  match untilMs with Some t => row_time_created r <=? t | None => true end.

(** [json_extract(data, '$.key')]: of the members of an object that share
    the key, SQLite takes the first (the key written without escapes). *)
Definition jsonExtractMember (key : string) (v : value) : option value :=
  match v with
  | JObj fields => snd <$> List.find (λ kv, String.eqb kv.1 key) fields
  | _ => None
  end.

(** [json_extract(data, '$.role') = 'assistant'] on one row: SQLite
    raises an error on a text that is not well-formed JSON. *)
Definition jsonExtractRoleIsAssistant (data : text) : Exc bool :=
  match data with
  | NotJson _ => inl (SqliteError "malformed JSON")
  | Doc v =>
      inr match jsonExtractMember "role" v with
          | Some (JStr r) => String.eqb r "assistant"
          | _ => false
          end
  end.

Fixpoint countAssistantByJsonExtract (rows : list MessageRow) : Exc Z :=
  match rows with
  | [] => inr 0
  | r :: rows =>
      hit ← jsonExtractRoleIsAssistant (row_data r);
      n ← countAssistantByJsonExtract rows;
      mret (if hit : bool then n + 1 else n)
  end.

Definition noSuchFunction : JsError := SqliteError "no such function: json_extract".

(** [conn.get(sql)] for the statements that yield one number. *)
Definition sqlGetNumber (h : Host) (db : Database) (sql : Sql) : Store Z :=
  io (IoQuery sql) ;;
  match sql with
  | SqlCountSessions => mret (Z.of_nat (length (session db)))
  | SqlCountMessages => mret (Z.of_nat (length (message db)))
  | SqlCountAssistantByJsonExtract =>
      if hasJsonFunctions h then lift (countAssistantByJsonExtract (message db))
      else throw noSuchFunction
  | _ => throw (SqliteError "not a scalar query")
  end.

(** The canary [SELECT json_extract('{"role":"assistant"}', '$.role') as r]. *)
Definition sqlGetCanary (h : Host) : Store (option string) :=
  io (IoQuery SqlJsonCanary) ;;
  if hasJsonFunctions h then mret (Some "assistant") else throw noSuchFunction.

(** [SELECT 1 as ok FROM "session" WHERE id = ? LIMIT 1]. *)
Definition sqlSessionExists (db : Database) (sessionID : string) : Store bool :=
  io (IoQuery (SqlSessionExists sessionID)) ;;
  mret (existsb (λ s, String.eqb (srow_id s) sessionID) (session db)).

(** [conn.all] of the statement built by [buildMessageQuery]; an empty
    session id adds no condition. *)
Definition sqlSelectMessages (db : Database) (sessionID : option string)
    (sinceMs untilMs : option Z) : Store (list MessageRow) :=
  let sessionID := match sessionID with
                   | Some sid => if String.eqb sid "" then None else Some sid
                   | None => None
                   end in
  io (IoQuery (SqlSelectMessages sessionID sinceMs untilMs)) ;;
  mret (orderRows (List.filter (rowSelected sessionID sinceMs untilMs) (message db))).

Definition sqlSelectData (db : Database) : Store (list text) :=
  io (IoQuery SqlSelectData) ;; mret (row_data <$> message db).

(** *** The exported functions *)

Definition hasJsonExtract (h : Host) : Store bool :=
  try_catch
    (row ← sqlGetCanary h;
     mret (match row with Some r => String.eqb r "assistant" | None => false end))
    (λ _, mret false).

(** [payload && payload.role === "assistant"]. *)
Definition payloadIsAssistant (payload : option value) : bool :=
  match payload with
  | Some v =>
      match get "role" v with
      | Some (JStr r) => String.eqb r "assistant"
      | _ => false
      end
  | None => false
  end.

Definition getOpenCodeDbStats (h : Host) : Store OpenCodeDbStats :=
  db ← openDbOrNull h;
  match db with
  | None =>
      path ← getOpenCodeDbPath h;
      mret {| dbPath := path; sessionCount := 0; messageCount := 0;
              assistantMessageCount := 0 |}
  | Some path =>
      io (IoOpen path) ;;
      let conn := databaseAt h path in
      try_finally
        (sessions ← sqlGetNumber h conn SqlCountSessions;
         messages ← sqlGetNumber h conn SqlCountMessages;
         native ← hasJsonExtract h;
         assistantCount ←
           (if native : bool then sqlGetNumber h conn SqlCountAssistantByJsonExtract
            else
              rows ← sqlSelectData conn;
              mret (Z.of_nat (length
                (List.filter (λ data, payloadIsAssistant (safeJsonParse data)) rows))));
         mret {| dbPath := path; sessionCount := sessions; messageCount := messages;
                 assistantMessageCount := assistantCount |})
        (λ tr, tr ++ [IoClose])
  end.

Definition lowerAscii (c : Ascii.ascii) : Ascii.ascii :=
  let n := Ascii.nat_of_ascii c in
  if ((65 <=? n) && (n <=? 90))%nat then Ascii.ascii_of_nat (n + 32) else c.

Fixpoint toLowerCase (x : string) : string :=
  match x with
  | EmptyString => EmptyString
  | String c rest => String (lowerAscii c) (toLowerCase rest)
  end.

(** The loop shared by the two iterators: rows that do not decode, and
    rows of another role, are skipped. *)
Definition assistantMessages (rows : list MessageRow) : list OpenCodeMessage :=
  List.filter (λ msg, String.eqb (toLowerCase (role msg)) "assistant")
    (omap mapRowToOpenCodeMessage rows).

Definition iterAssistantMessages (h : Host) (sinceMs untilMs : option Z)
  : Store (list OpenCodeMessage) :=
  db ← openDbOrNull h;
  match db with
  | None => mret []
  | Some path =>
      io (IoOpen path) ;;
      try_finally
        (rows ← sqlSelectMessages (databaseAt h path) None sinceMs untilMs;
         mret (assistantMessages rows))
        (λ tr, tr ++ [IoClose])
  end.

Definition iterAssistantMessagesForSession (h : Host) (sessionID : string)
    (sinceMs untilMs : option Z) : Store (list OpenCodeMessage) :=
  validateSessionIdOrThrow sessionID ;;
  db ← openDbOrNull h;
  match db with
  | None =>
      path ← getOpenCodeDbPath h;
      throw (SessionNotFoundError sessionID path)
  | Some path =>
      io (IoOpen path) ;;
      let conn := databaseAt h path in
      try_finally
        (found ← sqlSessionExists conn sessionID;
         if negb found then throw (SessionNotFoundError sessionID path)
         else
           rows ← sqlSelectMessages conn (Some sessionID) sinceMs untilMs;
           mret (assistantMessages rows))
        (λ tr, tr ++ [IoClose])
  end.

(** *** Example hosts *)

Definition exampleDatabase : Database :=
  {| session := [mkSessionRow "ses_1" (Some "first") None 1000 2000];
     message :=
       [mkMessageRow "msg_2" "ses_1" 1200 None
          (Doc (JObj [("role", JStr "assistant"); ("providerID", JStr "opencode");
                      ("modelID", JStr "gpt-5.2")]));
        mkMessageRow "msg_1" "ses_1" 1100 None (Doc (JObj [("role", JStr "user")]));
        mkMessageRow "msg_3" "ses_1" 1300 None (NotJson "{oops")] |}.

Definition exampleHost : Host :=
  {| dbPathLookup := "/data/opencode/opencode.db";
     existsSync := λ path, String.eqb path "/data/opencode/opencode.db";
     databaseAt := λ _, exampleDatabase;
     hasJsonFunctions := true |}.

(** The same host on a SQLite build without the JSON functions. *)
Definition exampleHostNoJson : Host :=
  {| dbPathLookup := dbPathLookup exampleHost;
     existsSync := existsSync exampleHost;
     databaseAt := databaseAt exampleHost;
     hasJsonFunctions := false |}.

(** A host on which none of the candidate paths exists. *)
Definition missingStoreHost : Host :=
  {| dbPathLookup := "/data/opencode/opencode.db";
     existsSync := λ _, false;
     databaseAt := λ _, mkDatabase [] [];
     hasJsonFunctions := true |}.

End MessageStore.

(** ** The usage aggregator *)

Module UsageAggregator.

Record TokenBuckets := mkTokens {
  input : Z; output : Z; reasoning : Z; cache_read : Z; cache_write : Z }.

Definition noTokens : TokenBuckets := mkTokens 0 0 0 0 0.

Definition addTokens (a b : TokenBuckets) : TokenBuckets :=
  {| input := input a + input b; output := output a + output b;
     reasoning := reasoning a + reasoning b;
     cache_read := cache_read a + cache_read b;
     cache_write := cache_write a + cache_write b |}.

(** An assistant message as the aggregator sees it (absent token fields
    already read as 0). *)
Record MessageRecord := mkMessage {
  msg_id : string;
  msg_sessionID : string;
  msg_providerID : option string;
  msg_modelID : option string;
  msg_tokens : TokenBuckets;
  msg_createdAtMs : Z;
}.

(** One entry of a breakdown: tokens, cost and number of messages. The
    cost is kept in an integer unit. *)
Record Bucket := mkBucket { tokens : TokenBuckets; costUsd : Z; messageCount : Z }.

Definition noBucket : Bucket := mkBucket noTokens 0 0.

Definition addBucket (a b : Bucket) : Bucket :=
  {| tokens := addTokens (tokens a) (tokens b);
     costUsd := costUsd a + costUsd b;
     messageCount := messageCount a + messageCount b |}.

Record Totals := mkTotals {
  priced : TokenBuckets;
  unknown : TokenBuckets;
  totalCostUsd : Z;
  totalMessageCount : Z;
  sessionCount : Z;
}.

Record AggregateResult := mkResult {
  window : option Z * option Z;
  totals : Totals;
  bySourceProvider : list (string * Bucket);
  bySourceModel : list ((string * string) * Bucket);
  byModel : list ((string * string) * Bucket);
  bySession : list (string * Bucket);
  unknownList : list ((string * string) * Bucket);
}.

(** Add [b] to the entry of [k], or open one at the end of the list. *)
Fixpoint bump {K} `{EqDecision K} (k : K) (b : Bucket) (l : list (K * Bucket))
  : list (K * Bucket) :=
  match l with
  | [] => [(k, b)]
  | (k', b') :: rest =>
      if decide (k = k') then (k', addBucket b' b) :: rest
      else (k', b') :: bump k b rest
  end.

(** The same for the per-source-model list, where a new entry goes to
    the end of the run of its provider, so that the entries of one
    provider stay next to each other. *)
Fixpoint bumpGrouped (p m : string) (b : Bucket)
    (l : list ((string * string) * Bucket)) : list ((string * string) * Bucket) :=
  match l with
  | [] => [((p, m), b)]
  | (k', b') :: rest =>
      if decide ((p, m) = k') then (k', addBucket b' b) :: rest
      else if bool_decide (p = k'.1) &&
              negb (existsb (λ e, bool_decide (p = e.1.1)) rest)
      then (k', b') :: ((p, m), b) :: rest
      else (k', b') :: bumpGrouped p m b rest
  end.

(** The sum of a breakdown list. *)
Definition total {K} (l : list (K * Bucket)) : Bucket :=
  foldr (λ e acc, addBucket e.2 acc) noBucket l.

(** What the running result satisfies after every message. *)
Definition balanced (acc : AggregateResult) : Prop :=
  let tot := totals acc in
  let all := mkBucket (addTokens (priced tot) (unknown tot))
               (totalCostUsd tot) (totalMessageCount tot) in
  total (bySourceModel acc) = all ∧
  total (bySourceProvider acc) = all ∧
  total (bySession acc) = all ∧
  tokens (total (byModel acc)) = priced tot ∧
  costUsd (total (byModel acc)) = totalCostUsd tot ∧
  tokens (total (unknownList acc)) = unknown tot ∧
  costUsd (total (unknownList acc)) = 0 ∧
  messageCount (total (byModel acc)) + messageCount (total (unknownList acc))
    = totalMessageCount tot.

Section Pricing.
(** [PricingLookup]: the rates of a (provider, model) pair, if known,
    and what a message costs at given rates. *)
Context {Rates : Type}.
Context (lookup : string → string → option Rates).
Context (costOf : Rates → TokenBuckets → Z).

Definition empty (w : option Z * option Z) : AggregateResult :=
  {| window := w; totals := mkTotals noTokens noTokens 0 0 0;
     bySourceProvider := []; bySourceModel := []; byModel := [];
     bySession := []; unknownList := [] |}.

(** Modelled from the spec: the body of [aggregateUsage] of
    [quota-stats.ts], which is not among the sources. Section 4.2: each
    message is classified against the pricing lookup; with known rates
    its tokens and cost go to the "priced" bucket and to the
    breakdowns; without, its tokens go to the "unknown" bucket and to
    the [unknown] list, at zero cost. Sections 3 and 8 say which rows
    the breakdowns of the source hold: those of every contributing
    message (their sum is [priced + unknown]), so a message without
    rates enters the per-source and per-session lists at zero cost;
    [byModel], the list of priced models, has the priced messages.
    [messageCount] counts the contributing rows. *)
Definition addMessage (acc : AggregateResult) (msg : MessageRecord)
  : AggregateResult :=
  let p := default "unknown" (msg_providerID msg) in
  let m := default "unknown" (msg_modelID msg) in
  let t := msg_tokens msg in
  let tot := totals acc in
  match lookup p m with
  | Some rates =>
      let b := mkBucket t (costOf rates t) 1 in
      {| window := window acc;
         totals := {| priced := addTokens (priced tot) t;
                      unknown := unknown tot;
                      totalCostUsd := totalCostUsd tot + costOf rates t;
                      totalMessageCount := totalMessageCount tot + 1;
                      sessionCount := sessionCount tot |};
         bySourceProvider := bump p b (bySourceProvider acc);
         bySourceModel := bumpGrouped p m b (bySourceModel acc);
         byModel := bump (p, m) b (byModel acc);
         bySession := bump (msg_sessionID msg) b (bySession acc);
         unknownList := unknownList acc |}
  | None =>
      let b := mkBucket t 0 1 in
      {| window := window acc;
         totals := {| priced := priced tot;
                      unknown := addTokens (unknown tot) t;
                      totalCostUsd := totalCostUsd tot;
                      totalMessageCount := totalMessageCount tot + 1;
                      sessionCount := sessionCount tot |};
         bySourceProvider := bump p b (bySourceProvider acc);
         bySourceModel := bumpGrouped p m b (bySourceModel acc);
         byModel := byModel acc;
         bySession := bump (msg_sessionID msg) b (bySession acc);
         unknownList := bump (p, m) b (unknownList acc) |}
  end.

(** The messages of the query: created within the inclusive window,
    and of the session asked for, if one is. *)
Definition matches (sinceMs untilMs : option Z) (sessionID : option string)
    (msg : MessageRecord) : bool :=
  match sinceMs with Some t => t <=? msg_createdAtMs msg | None => true end &&
  match untilMs with Some t => msg_createdAtMs msg <=? t | None => true end &&
  match sessionID with Some s => String.eqb (msg_sessionID msg) s | None => true end.

(** Modelled from the spec: [aggregateUsage({sinceMs?, untilMs?,
    sessionID?})] of [quota-stats.ts] over the assistant messages of
    the store; [sessionCount] counts the distinct sessions touched. *)
Definition aggregateUsage (sinceMs untilMs : option Z) (sessionID : option string)
    (messages : list MessageRecord) : AggregateResult :=
  let acc := foldl addMessage (empty (sinceMs, untilMs))
               (List.filter (matches sinceMs untilMs sessionID) messages) in
  {| window := window acc;
     totals := {| priced := priced (totals acc); unknown := unknown (totals acc);
                  totalCostUsd := totalCostUsd (totals acc);
                  totalMessageCount := totalMessageCount (totals acc);
                  sessionCount := Z.of_nat (length (bySession acc)) |};
     bySourceProvider := bySourceProvider acc;
     bySourceModel := bySourceModel acc;
     byModel := byModel acc;
     bySession := bySession acc;
     unknownList := unknownList acc |}.

End Pricing.

End UsageAggregator.

(** ** Definitions used to state further properties *)

Module CalendarDay.

(** The date part ["YYYY-MM-DD"] of [toISOString] (with a signed six-digit
    year outside 0-9999). *)
Definition datePart (t : Z) : string :=
  JsDate.yearString (JsDate.YearFromTime t) +:+ "-" +:+
  JsDate.pad 2 (JsDate.MonthFromTime t + 1) +:+ "-" +:+
  JsDate.pad 2 (JsDate.DateFromTime t).

(** The time values whose year is written with four digits. *)
Definition fourDigitYear (t : Z) : Prop := 0 ≤ JsDate.YearFromTime t ≤ 9999.

End CalendarDay.

Module StateShape.
Import LocalQuota.

(** A state as [normalizeState] produces them. *)
Definition wellFormedState (s : QwenLocalQuotaStateFileV1) : Prop :=
  version s = QWEN_LOCAL_QUOTA_STATE_VERSION ∧
  String.length (utcDay s) = 10%nat ∧
  0 ≤ dayCount s ∧
  Forall (λ ts, 0 < ts) (recent s) ∧
  0 < updatedAt s.

(** What [normalizeState] makes sure of, whatever it was given. *)
Definition checkedState (s : QwenLocalQuotaStateFileV1) : Prop :=
  version s = QWEN_LOCAL_QUOTA_STATE_VERSION ∧
  String.length (utcDay s) = 10%nat ∧
  0 ≤ dayCount s ∧
  Forall (λ ts, 0 ≤ ts) (recent s) ∧
  0 ≤ updatedAt s.

(** A state file with fractions: [{"recent": [0.5], "updatedAt": 0.5}]. *)
Definition halves : Json.value :=
  Json.JObj [("recent", Json.JArr [Json.JFrac (QArith_base.Qmake 1 2)]);
             ("updatedAt", Json.JFrac (QArith_base.Qmake 1 2))].

(** A platform that fails none of the coming calls. *)
Definition faultFree (fs : Fs) : Prop := ∀ op, faults fs op = [].

(** The platform's store of failures after a recording that met none:
    each of the four calls has used up its own. *)
Definition afterRecord (fs : Fs) : FsOp → list (option JsError) :=
  consumed OpRename (mkFs ∅
    (consumed OpWriteFile (mkFs ∅
       (consumed OpMkdir (mkFs ∅ (consumed OpReadFile fs) [])) [])) []).

End StateShape.

Module StoreShape.
Import Json MessageStore.

(** The store of the host is the file at [path]. *)
Definition storeAt (h : Host) (path : string) : Prop :=
  dbPathLookup h = path ∧ path ≠ "" ∧ existsSync h path = true.

(** No store: the lookup comes up empty, or with a path that names no file. *)
Definition noStore (h : Host) : Prop :=
  dbPathLookup h = "" ∨ existsSync h (dbPathLookup h) = false.

(** The discipline of a connection: it is opened when none is open,
    queried and closed only while open, and not left open. *)
Fixpoint wellBracketed (opened : bool) (evs : list StoreIO) : bool :=
  match evs with
  | [] => negb opened
  | IoOpen _ :: rest => negb opened && wellBracketed true rest
  | IoQuery _ :: rest => opened && wellBracketed opened rest
  | IoClose :: rest => opened && wellBracketed false rest
  | _ :: rest => wellBracketed opened rest
  end.




End StoreShape.

(** ** [opencode-storage.ts] on a driver that may fail *)

Module FallibleStore.
Import Json MessageStore.

(** What [bun:sqlite] may throw behind [opencode-sqlite.ts]:
    [new Database(dbPath)] when the connection is opened, and
    [db.query(sql)] or [stmt.get]/[stmt.all] for any statement.
    ([conn.close()] catches what [db.close()] throws, and the two PRAGMA
    statements of [openOpenCodeSqliteReadOnly] are in a [try] of their
    own.) A statement is sent at most once in a call, so one verdict per
    statement is all a call can see. *)
Record Failures := mkFailures {
  openFails : option JsError;
  queryFails : Sql → option JsError;
}.

Definition noFailures : Failures := mkFailures None (λ _, None).

(** [await db.open()]: there is a connection only once the call has
    returned. *)
Definition openConn (f : Failures) (path : string) : Store unit :=
  match openFails f with
  | Some err => throw err
  | None => io (IoOpen path)
  end.

(** [conn.get]/[conn.all] of [sql]: the statement goes out, and the
    driver throws or gives the answer of the database. *)
Definition run {A} (f : Failures) (sql : Sql) (answer : Store A) : Store A :=
  match queryFails f sql with
  | Some err => io (IoQuery sql) ;; throw err
  | None => answer
  end.

(** The statement of [buildMessageQuery]. *)
Definition messageQuery (sessionID : option string) (sinceMs untilMs : option Z) : Sql :=
  SqlSelectMessages
    match sessionID with
    | Some sid => if String.eqb sid "" then None else Some sid
    | None => None
    end sinceMs untilMs.

Definition hasJsonExtract (f : Failures) (h : Host) : Store bool :=
  try_catch
    (row ← run f SqlJsonCanary (sqlGetCanary h);
     mret (match row with Some r => String.eqb r "assistant" | None => false end))
    (λ _, mret false).

Definition getOpenCodeDbStats (f : Failures) (h : Host) : Store OpenCodeDbStats :=
  db ← openDbOrNull h;
  match db with
  | None =>
      path ← getOpenCodeDbPath h;
      mret {| dbPath := path; sessionCount := 0; messageCount := 0;
              assistantMessageCount := 0 |}
  | Some path =>
      openConn f path ;;
      let conn := databaseAt h path in
      try_finally
        (sessions ← run f SqlCountSessions (sqlGetNumber h conn SqlCountSessions);
         messages ← run f SqlCountMessages (sqlGetNumber h conn SqlCountMessages);
         native ← hasJsonExtract f h;
         assistantCount ←
           (if native : bool
            then run f SqlCountAssistantByJsonExtract
                   (sqlGetNumber h conn SqlCountAssistantByJsonExtract)
            else
              rows ← run f SqlSelectData (sqlSelectData conn);
              mret (Z.of_nat (length
                (List.filter (λ data, payloadIsAssistant (safeJsonParse data)) rows))));
         mret {| dbPath := path; sessionCount := sessions; messageCount := messages;
                 assistantMessageCount := assistantCount |})
        (λ tr, tr ++ [IoClose])
  end.

Definition iterAssistantMessages (f : Failures) (h : Host) (sinceMs untilMs : option Z)
  : Store (list OpenCodeMessage) :=
  db ← openDbOrNull h;
  match db with
  | None => mret []
  | Some path =>
      openConn f path ;;
      try_finally
        (rows ← run f (messageQuery None sinceMs untilMs)
                  (sqlSelectMessages (databaseAt h path) None sinceMs untilMs);
         mret (assistantMessages rows))
        (λ tr, tr ++ [IoClose])
  end.

Definition iterAssistantMessagesForSession (f : Failures) (h : Host)
    (sessionID : string) (sinceMs untilMs : option Z) : Store (list OpenCodeMessage) :=
  validateSessionIdOrThrow sessionID ;;
  db ← openDbOrNull h;
  match db with
  | None =>
      path ← getOpenCodeDbPath h;
      throw (SessionNotFoundError sessionID path)
  | Some path =>
      openConn f path ;;
      let conn := databaseAt h path in
      try_finally
        (found ← run f (SqlSessionExists sessionID) (sqlSessionExists conn sessionID);
         if negb found then throw (SessionNotFoundError sessionID path)
         else
           rows ← run f (messageQuery (Some sessionID) sinceMs untilMs)
                    (sqlSelectMessages conn (Some sessionID) sinceMs untilMs);
           mret (assistantMessages rows))
        (λ tr, tr ++ [IoClose])
  end.

End FallibleStore.

(* ================================================================== *)
(** * Properties *)

Section BuiltinFacts.
Import JsDate JsNumber.

(** [YearFromDay] is the year of ECMA-262: the one whose first day is
    the last first-of-January not after the given day. *)
Lemma YearFromDay_spec d :
  DayFromYear (YearFromDay d) ≤ d < DayFromYear (YearFromDay d + 1).
Proof.
  unfold YearFromDay.
  destruct (Z.ltb_spec d (DayFromYear (1970 + 400 * d / 146097))) as [H1|H1];
    [|destruct (Z.leb_spec (DayFromYear (1970 + 400 * d / 146097 + 1)) d) as [H2|H2]];
    unfold DayFromYear in *; Z.div_mod_to_equations; lia.
Qed.

(** A year has 366 days when it is a leap year and 365 otherwise. *)
Lemma DayFromYear_step y :
  DayFromYear (y + 1) - DayFromYear y = if isLeapYear y then 366 else 365.
Proof.
  unfold isLeapYear, DayFromYear.
  destruct (Z.eqb_spec (y mod 4) 0), (Z.eqb_spec (y mod 100) 0),
    (Z.eqb_spec (y mod 400) 0); simpl; Z.div_mod_to_equations; lia.
Qed.

(** So the day within the year and the day of the month are in range. *)
Lemma DateFromTime_range t : 1 ≤ DateFromTime t ≤ 31.
Proof.
  unfold DateFromTime, MonthFromTime, DayWithinYear, InLeapYear, YearFromTime.
  pose proof (YearFromDay_spec (Day t)) as Hy.
  pose proof (DayFromYear_step (YearFromDay (Day t))) as Hs.
  set (d := Day t - DayFromYear (YearFromDay (Day t))).
  assert (0 ≤ d < if isLeapYear (YearFromDay (Day t)) then 366 else 365) as Hd
    by (subst d; lia).
  clearbody d. clear Hy Hs.
  unfold monthOfDayWithinYear.
  destruct (isLeapYear (YearFromDay (Day t)));
    repeat (case_match; simpl; try lia).
Qed.

Example iso_test_clock :
  toISOString (ofNumber 1771934400000) = inr "2026-02-24T12:00:00.000Z".
Proof. vm_compute. reflexivity. Qed.

Example iso_epoch : toISOString (ofNumber 0) = inr "1970-01-01T00:00:00.000Z".
Proof. vm_compute. reflexivity. Qed.

Example iso_before_epoch :
  toISOString (ofNumber (-1)) = inr "1969-12-31T23:59:59.999Z".
Proof. vm_compute. reflexivity. Qed.

Example iso_leap_day :
  toISOString (ofNumber 951782400000) = inr "2000-02-29T00:00:00.000Z".
Proof. vm_compute. reflexivity. Qed.

Example iso_last_time :
  toISOString (ofNumber 8640000000000000) = inr "+275760-09-13T00:00:00.000Z".
Proof. vm_compute. reflexivity. Qed.

Example iso_first_time :
  toISOString (ofNumber (-8640000000000000)) = inr "-271821-04-20T00:00:00.000Z".
Proof. vm_compute. reflexivity. Qed.

Example iso_out_of_range :
  toISOString (ofNumber 8640000000000001) = inl (RangeError "Invalid time value").
Proof. vm_compute. reflexivity. Qed.

Example round_half_up : Math_round (PrimFloat.div (of_Z 5) (of_Z 2)) = 3.
Proof. vm_compute. reflexivity. Qed.

Example round_negative_half : Math_round (PrimFloat.div (of_Z (-5)) (of_Z 2)) = -2.
Proof. vm_compute. reflexivity. Qed.

Example of_Z_rounds : Math_round (of_Z 9007199254740993) = 9007199254740992.
Proof. vm_compute. reflexivity. Qed.

End BuiltinFacts.

Section FetchCacheFacts.
Import FetchCache.

Implicit Types (s : State) (now m : Z).

Lemma getCachedToast_state now m s : (getCachedToast now m s).2 = s.
Proof.
  unfold getCachedToast. destruct (cachedToast s); [|done].
  by case_match.
Qed.

Lemma getCachedToast_ext now m s s' :
  cachedToast s = cachedToast s' →
  (getCachedToast now m s).1 = (getCachedToast now m s').1.
Proof.
  unfold getCachedToast. intros <-. destruct (cachedToast s); [|done].
  by case_match.
Qed.

Lemma getCachedToast_None_mono now now' m s :
  (getCachedToast now m s).1 = None → now ≤ now' →
  (getCachedToast now' m s).1 = None.
Proof.
  unfold getCachedToast. destruct (cachedToast s) as [c|]; [|done].
  destruct (Z.ltb_spec (now - timestamp c) m); [done|].
  intros _ ?. destruct (Z.ltb_spec (now' - timestamp c) m); [lia|done].
Qed.

(** The call that finds no fresh toast, no fetch in flight and the
    throttle window elapsed is the one that starts a fetch. *)
Lemma call_starts now m s p s1 :
  inFlightPromise s = None →
  getOrFetchWithCacheControl now m s = (Awaits p, s1) →
  (getCachedToast now m s).1 = None ∧ p = nextPromise s ∧
  cachedToast s1 = cachedToast s ∧ inFlightPromise s1 = Some p ∧
  lastFetchTime s1 = now ∧ fetchCalls s1 = S (fetchCalls s) ∧
  promises s1 = <[p := Pending]> (promises s).
Proof.
  intros Hin. unfold getOrFetchWithCacheControl.
  pose proof (getCachedToast_state now m s) as Hst.
  destruct (getCachedToast now m s) as [[c|] s'] eqn:Hc; simpl in Hst; subst s';
    [intros [=]|].
  rewrite Hin. unfold shouldFetch.
  destruct (m <=? now - lastFetchTime s); simpl; [|intros [=]].
  intros [= <- <-]. done.
Qed.

Lemma call_starts_intro now m s :
  (getCachedToast now m s).1 = None → inFlightPromise s = None →
  m ≤ now - lastFetchTime s →
  ∃ s1, getOrFetchWithCacheControl now m s = (Awaits (nextPromise s), s1) ∧
        fetchCalls s1 = S (fetchCalls s) ∧ cachedToast s1 = cachedToast s.
Proof.
  intros Hc Hin Hm. unfold getOrFetchWithCacheControl.
  pose proof (getCachedToast_state now m s) as Hst.
  destruct (getCachedToast now m s) as [c s']; simpl in *; subst.
  rewrite Hin. unfold shouldFetch.
  destruct (Z.leb_spec m (now - lastFetchTime s)); [|lia]. simpl.
  by eexists.
Qed.

Lemma call_throttled now m s :
  inFlightPromise s = None → now - lastFetchTime s < m →
  getOrFetchWithCacheControl now m s = (Returns (message <$> cachedToast s), s).
Proof.
  intros Hin Hm. unfold getOrFetchWithCacheControl, getCachedToast.
  destruct (cachedToast s) as [c|] eqn:Hc; simpl.
  - destruct (now - timestamp c <? m); [done|].
    rewrite Hin. unfold shouldFetch.
    destruct (Z.leb_spec m (now - lastFetchTime s)); [lia|]. simpl.
    by rewrite Hc.
  - rewrite Hin. unfold shouldFetch.
    destruct (Z.leb_spec m (now - lastFetchTime s)); [lia|]. simpl.
    by rewrite Hc.
Qed.

Lemma call_joins now m s p :
  inFlightPromise s = Some p → (getCachedToast now m s).1 = None →
  getOrFetchWithCacheControl now m s = (Awaits p, s).
Proof.
  intros Hin Hc. unfold getOrFetchWithCacheControl.
  pose proof (getCachedToast_state now m s) as Hst.
  destruct (getCachedToast now m s) as [c s']; simpl in *; subst.
  by rewrite Hin.
Qed.

(** While a fetch is in flight no call starts another one, whatever its
    interval and clock reading: it is handed the shared promise, unless the
    cached toast is fresh for it, which it then gets. *)
Lemma call_while_in_flight now m s p :
  inFlightPromise s = Some p →
  (getOrFetchWithCacheControl now m s).2 = s ∧
  ((getOrFetchWithCacheControl now m s).1 = Awaits p ∨
   ∃ c, cachedToast s = Some c ∧ now - timestamp c < m ∧
        (getOrFetchWithCacheControl now m s).1 = Returns (Some (message c))).
Proof.
  intros Hin. unfold getOrFetchWithCacheControl, getCachedToast.
  destruct (cachedToast s) as [c|] eqn:Hc; simpl; [|rewrite Hin; by auto].
  destruct (Z.ltb_spec (now - timestamp c) m); simpl; [|rewrite Hin; by auto].
  split; [done|]. right. by exists c.
Qed.

Lemma callers_join m t0 times s p :
  inFlightPromise s = Some p → (getCachedToast t0 m s).1 = None →
  Forall (λ t, t0 ≤ t) times →
  callers m times s = (replicate (length times) (Awaits p), s).
Proof.
  intros Hin Hc. induction 1 as [|t times Ht _ IH]; [done|].
  simpl. rewrite (call_joins t m s p), IH; [done..|].
  by eapply getCachedToast_None_mono.
Qed.

Lemma callers_after_start m t0 times s0 p s1 :
  inFlightPromise s0 = None →
  getOrFetchWithCacheControl t0 m s0 = (Awaits p, s1) →
  Forall (λ t, t0 ≤ t) times →
  callers m times s1 = (replicate (length times) (Awaits p), s1).
Proof.
  intros Hin Hcall Ht.
  destruct (call_starts _ _ _ _ _ Hin Hcall) as (Hc & _ & Hct & Hin1 & _).
  apply (callers_join m t0); [exact Hin1| |exact Ht].
  by rewrite (getCachedToast_ext t0 m s1 s0).
Qed.

Lemma fetchSettled_promise p r now s :
  promises (fetchSettled p r now s) !! p = Some (settlement_of r).
Proof.
  unfold fetchSettled.
  destruct r as [[[msg|] [[]|]]|e]; simpl; by rewrite lookup_insert_eq.
Qed.

Lemma resolution_replicate s p v n :
  promises s !! p = Some v →
  Forall (λ res, resolution s res = v) (replicate n (Awaits p)).
Proof.
  intros Hp. apply Forall_replicate. simpl. by rewrite Hp.
Qed.

Lemma fetch_fan_in_aux s0 s1 m t0 p (times : list Z) tS (r : FetchSettle) :
  inFlightPromise s0 = None →
  getOrFetchWithCacheControl t0 m s0 = (Awaits p, s1) →
  Forall (λ t, t0 ≤ t) times →
  (callers m times s1).2 = s1 ∧
  Forall (λ res, resolution (fetchSettled p r tS s1) res = settlement_of r)
    (Awaits p :: (callers m times s1).1).
Proof.
  intros Hin Hcall Ht.
  rewrite (callers_after_start m t0 times s0 p s1 Hin Hcall Ht). simpl.
  pose proof (fetchSettled_promise p r tS s1) as Hp.
  split; [done|].
  constructor; [by simpl; rewrite Hp|]. by apply resolution_replicate.
Qed.

(** C1. While one fetch is in flight, every further caller of the same
    poll (any number of them, with the interval of the call that started
    the fetch, at clock readings not before its start) is handed the
    shared promise: [fetchFn] has run once, and when the fetch settles all
    of them, the starter included, observe the same settlement. *)
Theorem fetch_fan_in s0 s1 m t0 p (times : list Z) tS (r : FetchSettle) :
  inFlightPromise s0 = None →
  getOrFetchWithCacheControl t0 m s0 = (Awaits p, s1) →
  Forall (λ t, t0 ≤ t) times →
  let rs := (callers m times s1).1 in
  let s2 := (callers m times s1).2 in
  let s3 := fetchSettled p r tS s2 in
  length rs = length times ∧
  Forall (λ res, res = Awaits p) rs ∧
  fetchCalls s2 = S (fetchCalls s0) ∧
  fetchCalls s3 = S (fetchCalls s0) ∧
  Forall (λ res, resolution s3 res = settlement_of r) (Awaits p :: rs).
Proof.
  intros Hin Hcall Ht. simpl.
  rewrite (callers_after_start m t0 times s0 p s1 Hin Hcall Ht). simpl.
  destruct (call_starts _ _ _ _ _ Hin Hcall) as (_ & _ & _ & _ & _ & Hn & _).
  pose proof (fetchSettled_promise p r tS s1) as Hp.
  split_and!.
  - by rewrite length_replicate.
  - by apply Forall_replicate.
  - done.
  - by destruct r as [[[?|] [[]|]]|?].
  - constructor; [by simpl; rewrite Hp|]. by apply resolution_replicate.
Qed.

Lemma fetch_fan_in_witness :
  let s1 := (getOrFetchWithCacheControl 1000 0 initial).2 in
  let rs := (callers 0 [1000; 1004; 1009] s1).1 in
  let s3 := fetchSettled 0 (Resolves (wrapped (Some "result"))) 1010
              (callers 0 [1000; 1004; 1009] s1).2 in
  length rs = 3%nat ∧
  Forall (λ res, res = Awaits 0) rs ∧
  fetchCalls (callers 0 [1000; 1004; 1009] s1).2 = 1%nat ∧
  fetchCalls s3 = 1%nat ∧
  Forall (λ res, resolution s3 res = Fulfilled (Some "result")) (Awaits 0 :: rs).
Proof.
  apply (fetch_fan_in initial _ 0 1000 0%nat [1000; 1004; 1009] 1010
           (Resolves (wrapped (Some "result")))).
  - reflexivity.
  - reflexivity.
  - repeat constructor; lia.
Defined.

(** C7. When the fetch resolves: a null message resets the throttle
    clock to 0, resolves to null and leaves the cache slot alone; a
    message with [cache: false] is handed to the callers, leaves the cache
    slot alone and resets the throttle clock to 0; any other message is
    stored with the current time. In the first two cases the in-flight
    marker is cleared too, so a second call made later with the same
    interval (an interval that the clock reading itself has reached,
    since the throttle clock now reads 0) invokes [fetchFn] again. *)
Theorem fetch_completion_effects s p now (out : FetchOut) :
  let s' := fetchSettled p (Resolves out) now s in
  inFlightPromise s' = None ∧
  fetchCalls s' = fetchCalls s ∧
  match out_message out, out_cache out with
  | None, _ =>
      lastFetchTime s' = 0 ∧ cachedToast s' = cachedToast s ∧
      resolution s' (Awaits p) = Fulfilled None
  | Some msg, Some false =>
      lastFetchTime s' = 0 ∧ cachedToast s' = cachedToast s ∧
      resolution s' (Awaits p) = Fulfilled (Some msg)
  | Some msg, _ =>
      cachedToast s' = Some {| message := msg; timestamp := now |} ∧
      lastFetchTime s' = lastFetchTime s ∧
      resolution s' (Awaits p) = Fulfilled (Some msg)
  end ∧
  ∀ s0 m t1 t3,
    inFlightPromise s0 = None →
    getOrFetchWithCacheControl t1 m s0 = (Awaits p, s) →
    t1 ≤ t3 → m ≤ t3 →
    out_message out = None ∨ out_cache out = Some false →
    ∃ s3, getOrFetchWithCacheControl t3 m s' = (Awaits (nextPromise s'), s3) ∧
          fetchCalls s3 = S (S (fetchCalls s0)) ∧
          cachedToast s3 = cachedToast s0.
Proof.
  intros s'. split; [|split; [|split]].
  - subst s'. unfold fetchSettled. by repeat case_match.
  - subst s'. unfold fetchSettled. by repeat case_match.
  - subst s'. unfold fetchSettled, resolution.
    destruct (out_message out) as [msg|], (out_cache out) as [[]|]; simpl;
      by rewrite lookup_insert_eq.
  - intros s0 m t1 t3 Hin Hcall Ht Hm Hout.
    destruct (call_starts _ _ _ _ _ Hin Hcall) as (Hc & _ & Hct & _ & _ & Hn & _).
    pose proof (getCachedToast_None_mono _ _ _ _ Hc Ht) as Hc3.
    assert (cachedToast s' = cachedToast s0 ∧ lastFetchTime s' = 0) as [Hct' Hl'].
    { subst s'. unfold fetchSettled.
      destruct Hout as [-> | ->]; [by rewrite Hct|].
      destruct (out_message out); simpl; by rewrite Hct. }
    assert ((getCachedToast t3 m s').1 = None) as Hmiss.
    { by rewrite (getCachedToast_ext t3 m s' s0). }
    destruct (call_starts_intro t3 m s' Hmiss) as (s3 & Hs3 & Hn3 & Hct3).
    { subst s'. unfold fetchSettled. by repeat case_match. }
    { rewrite Hl'. lia. }
    exists s3. split; [done|]. rewrite Hn3, Hct3. split; [|done].
    do 2 f_equal. rewrite <- Hn. subst s'. unfold fetchSettled.
    by repeat case_match.
Qed.

Lemma fetch_completion_effects_witness :
  let s1 := (getOrFetchWithCacheControl 1767225600000 60000 initial).2 in
  let s' := fetchSettled 0 (Resolves (mkFetchOut (Some "err") (Some false)))
              1767225600000 s1 in
  (lastFetchTime s' = 0 ∧ cachedToast s' = None ∧
   resolution s' (Awaits 0) = Fulfilled (Some "err")) ∧
  ∃ s3, getOrFetchWithCacheControl 1767225600000 60000 s' = (Awaits 1, s3) ∧
        fetchCalls s3 = 2%nat ∧ cachedToast s3 = None.
Proof.
  pose proof (fetch_completion_effects
    (getOrFetchWithCacheControl 1767225600000 60000 initial).2 0%nat
    1767225600000 (mkFetchOut (Some "err") (Some false)))
    as (_ & _ & H3 & H4).
  split; [exact H3|].
  apply (H4 initial 60000 1767225600000 1767225600000).
  - reflexivity.
  - reflexivity.
  - lia.
  - lia.
  - right; reflexivity.
Defined.

(** C8. After [updateCache], [getCachedToast] returns the stored payload
    while the age of the entry is below [minIntervalMs] and null from
    [minIntervalMs] on; it returns null on an empty slot; and it leaves
    the state as it found it. *)
Theorem cached_toast_boundary s msg t0 now m :
  (now - t0 < m → (getCachedToast now m (updateCache msg t0 s)).1 = Some msg) ∧
  (m ≤ now - t0 → (getCachedToast now m (updateCache msg t0 s)).1 = None) ∧
  (cachedToast s = None → (getCachedToast now m s).1 = None) ∧
  (getCachedToast now m s).2 = s ∧
  (getCachedToast now m (updateCache msg t0 s)).2 = updateCache msg t0 s.
Proof.
  unfold getCachedToast. simpl. split_and!.
  - intros H. by destruct (Z.ltb_spec (now - t0) m); [|lia].
  - intros H. by destruct (Z.ltb_spec (now - t0) m); [lia|].
  - by intros ->.
  - apply getCachedToast_state.
  - by destruct (now - t0 <? m).
Qed.

Lemma cached_toast_boundary_witness :
  (getCachedToast 59999 60000 (updateCache "hello" 0 initial)).1 = Some "hello" ∧
  (getCachedToast 60000 60000 (updateCache "hello" 0 initial)).1 = None ∧
  (getCachedToast 60000 60000 initial).1 = None.
Proof.
  pose proof (cached_toast_boundary initial "hello" 0 59999 60000) as (H1 & _).
  pose proof (cached_toast_boundary initial "hello" 0 60000 60000)
    as (_ & H2 & H3 & _).
  split; [apply H1; lia|]. split; [apply H2; lia|]. apply H3. reflexivity.
Defined.

(** C10. When the promise of [fetchFn] rejects, every caller that was
    handed the shared promise observes the rejection, the in-flight
    marker is cleared, the cache slot is what it was before the fetch,
    and the throttle clock still holds the start time of the failed
    fetch: a call whose clock reading is within its interval of that
    start gets the cached message (or null) and starts no fetch. *)
Theorem fetch_rejection s0 s1 m t0 p (times : list Z) tR (e : string) :
  inFlightPromise s0 = None →
  getOrFetchWithCacheControl t0 m s0 = (Awaits p, s1) →
  Forall (λ t, t0 ≤ t) times →
  let rs := (callers m times s1).1 in
  let s3 := fetchSettled p (Rejects e) tR (callers m times s1).2 in
  Forall (λ res, resolution s3 res = Rejected e) (Awaits p :: rs) ∧
  inFlightPromise s3 = None ∧
  cachedToast s3 = cachedToast s0 ∧
  lastFetchTime s3 = t0 ∧
  fetchCalls s3 = S (fetchCalls s0) ∧
  ∀ t m', t - t0 < m' →
    getOrFetchWithCacheControl t m' s3 = (Returns (message <$> cachedToast s0), s3).
Proof.
  intros Hin Hcall Ht. simpl.
  destruct (fetch_fan_in_aux s0 s1 m t0 p times tR (Rejects e) Hin Hcall Ht)
    as (Hs2 & Hres).
  rewrite Hs2 in *.
  destruct (call_starts _ _ _ _ _ Hin Hcall) as (_ & _ & Hct & _ & Hl & Hn & _).
  split_and!; try done.
  intros t m' Hlt. rewrite <- Hct.
  apply (call_throttled t m' (fetchSettled p (Rejects e) tR s1)); [done|].
  simpl. by rewrite Hl.
Qed.

Lemma fetch_rejection_witness :
  let s1 := (getOrFetchWithCacheControl 1000 500 initial).2 in
  let s3 := fetchSettled 0 (Rejects "boom") 1010 (callers 500 [1004] s1).2 in
  Forall (λ res, resolution s3 res = Rejected "boom")
    (Awaits 0 :: (callers 500 [1004] s1).1) ∧
  inFlightPromise s3 = None ∧ cachedToast s3 = None ∧
  lastFetchTime s3 = 1000 ∧ fetchCalls s3 = 1%nat ∧
  getOrFetchWithCacheControl 1499 500 s3 = (Returns None, s3).
Proof.
  pose proof (fetch_rejection initial
    (getOrFetchWithCacheControl 1000 500 initial).2 500 1000 0%nat [1004] 1010
    "boom" eq_refl eq_refl ltac:(repeat constructor; lia))
    as (H1 & H2 & H3 & H4 & H5 & H6).
  split_and!; [exact H1|exact H2|exact H3|exact H4|exact H5|].
  apply (H6 1499 500). lia.
Defined.

End FetchCacheFacts.

Section LocalQuotaFacts.
Import LocalQuota.

Implicit Types (s : QwenLocalQuotaStateFileV1) (nowMs : Z).

Lemma ofNumber_valid t : JsDate.validTime t → JsDate.ofNumber t = Some t.
Proof.
  unfold JsDate.validTime, JsDate.ofNumber, JsDate.TimeClip. intros H.
  by destruct (Z.leb_spec (Z.abs t) JsDate.maxTime); [|lia].
Qed.

Lemma utcDayKey_valid nowMs :
  JsDate.validTime nowMs →
  utcDayKey nowMs = inr (String.substring 0 10 (JsDate.isoString nowMs)).
Proof. intros H. unfold utcDayKey. by rewrite ofNumber_valid. Qed.

Lemma slice_last_length {A} n (xs : list A) : (length (slice_last n xs) ≤ n)%nat.
Proof. unfold slice_last. rewrite length_drop. lia. Qed.

Lemma slice_last_short {A} n (xs : list A) :
  (length xs ≤ n)%nat → slice_last n xs = xs.
Proof.
  intros H. unfold slice_last. by replace (length xs - n)%nat with 0%nat by lia.
Qed.

Lemma slice_last_suffix {A} n (xs : list A) : slice_last n xs `suffix_of` xs.
Proof. apply suffix_drop. Qed.

Lemma window_filter nowMs (xs : list Z) :
  List.filter (λ ts, (nowMs - RPM_WINDOW_MS <=? ts) && (ts <=? nowMs)) xs
  = filter (inWindow nowMs) xs.
Proof.
  induction xs as [|x xs IH]; [done|]. simpl. rewrite filter_cons, IH.
  destruct (Z.leb_spec (nowMs - RPM_WINDOW_MS) x), (Z.leb_spec x nowMs); simpl;
    case_decide as Hd; unfold inWindow in Hd; (done || lia).
Qed.

Lemma filter_all {A} (P : A → Prop) `{!∀ x, Decision (P x)} (xs : list A) :
  Forall P xs → filter P xs = xs.
Proof.
  induction 1 as [|x xs Hx _ IH]; [done|].
  by rewrite filter_cons_True, IH.
Qed.

Lemma pruned_in_window nowMs (xs : list Z) :
  Forall (inWindow nowMs)
    (slice_last MAX_RECENT_TIMESTAMPS (filter (inWindow nowMs) xs)).
Proof.
  apply Forall_forall. intros ts Hts.
  eapply elem_of_suffix in Hts; [|apply slice_last_suffix].
  by apply list_elem_of_filter in Hts as [? _].
Qed.

Lemma applyUtcResetAndPrune_valid s nowMs :
  JsDate.validTime nowMs →
  let today := String.substring 0 10 (JsDate.isoString nowMs) in
  applyUtcResetAndPrune s nowMs =
    inr {| version := QWEN_LOCAL_QUOTA_STATE_VERSION; utcDay := today;
           dayCount := if String.eqb (utcDay s) today then dayCount s else 0;
           recent := slice_last MAX_RECENT_TIMESTAMPS
                       (filter (inWindow nowMs) (recent s));
           updatedAt := nowMs |}.
Proof.
  intros Hv today. unfold applyUtcResetAndPrune.
  rewrite (utcDayKey_valid nowMs Hv). simpl. rewrite window_filter.
  fold today. by destruct (String.eqb (utcDay s) today).
Qed.

(** C3 in the year 10000. [toISOString] writes a year outside 0 to 9999
    with a sign and six digits, so that the first ten characters of the
    text, which [utcDayKey] takes for the day, are the year and the
    month: ["+010000-01"] on 1 January 10000 and on 2 January 10000
    alike. A state of the first of these days that is normalised on the
    second keeps its [dayCount] of 42, where the claim has it reset to 0
    because the calendar day has changed; and of two completions
    recorded at the two midnights the second comes back with
    [dayCount = 2]. *)
Theorem applyUtcResetAndPrune_extended_year :
  let t0 := 253402300800000 in
  let t1 := t0 + 86400000 in
  let recorded := recordQwenCompletion "/state" "1-2-3" t0 (mkFs ∅ (λ _, []) []) in
  JsDate.toISOString (JsDate.ofNumber t0) = inr "+010000-01-01T00:00:00.000Z" ∧
  JsDate.toISOString (JsDate.ofNumber t1) = inr "+010000-01-02T00:00:00.000Z" ∧
  JsDate.Day t1 = JsDate.Day t0 + 1 ∧
  utcDayKey t0 = inr "+010000-01" ∧
  utcDayKey t1 = inr "+010000-01" ∧
  applyUtcResetAndPrune (mkQwenState 1 "+010000-01" 42 [] t0) t1 =
    inr (mkQwenState 1 "+010000-01" 42 [] t1) ∧
  recorded.1 = inr (mkQwenState 1 "+010000-01" 1 [t0] t0) ∧
  (recordQwenCompletion "/state" "4-5-6" t1 recorded.2).1 =
    inr (mkQwenState 1 "+010000-01" 2 [t1] t1).
Proof. vm_compute. done. Qed.

(** *** Persistence *)

Lemma eff_bind_ok {W A B} (m : Eff W A) (f : A → Eff W B) w a w' :
  m w = (inr a, w') → (m ≫= f) w = f a w'.
Proof. intros H. unfold mbind, eff_bind. by rewrite H. Qed.

Lemma eff_bind_err {W A B} (m : Eff W A) (f : A → Eff W B) w e w' :
  m w = (inl e, w') → (m ≫= f) w = (inl e, w').
Proof. intros H. unfold mbind, eff_bind. by rewrite H. Qed.

Lemma primitive_ok {A} op call normal (a : A) files' fs :
  unhindered op fs → normal (files fs) = inr (a, files') →
  primitive op call normal fs =
    (inr a, mkFs files' (consumed op fs) (calls fs ++ [call])).
Proof.
  intros Hok Hn. unfold primitive. rewrite Hn.
  destruct (head (faults fs op)) as [[err|]|] eqn:Hh; [|done..].
  by destruct (Hok err).
Qed.

Lemma primitive_fails {A} op call (normal : _ → Exc (A * _)) err fs :
  failsNext op err fs →
  primitive op call normal fs =
    (inl err, mkFs (files fs) (consumed op fs) (calls fs ++ [call])).
Proof. intros Hf. unfold primitive. by rewrite Hf. Qed.

Lemma defaultState_valid nowMs :
  JsDate.validTime nowMs → ∃ s, defaultState nowMs = inr s.
Proof. intros Hv. unfold defaultState. rewrite utcDayKey_valid by done. by eexists. Qed.

Lemma normalizeState_valid raw nowMs :
  JsDate.validTime nowMs → ∃ s, normalizeState raw nowMs = inr s.
Proof.
  intros Hv. unfold normalizeState.
  destruct raw; try apply (defaultState_valid _ Hv);
    rewrite utcDayKey_valid by done;
    repeat case_match; by eexists.
Qed.

(** Reading the state never throws at a valid time value, and leaves the
    files alone: a missing or corrupt file yields the default state. *)
Lemma readStateFromDisk_valid path nowMs fs :
  JsDate.validTime nowMs →
  ∃ loaded,
    readStateFromDisk path nowMs fs =
      (inr loaded,
       mkFs (files fs) (consumed OpReadFile fs) (calls fs ++ [CallReadFile path])).
Proof.
  intros Hv. unfold readStateFromDisk, try_catch, mbind, eff_bind, readFile, primitive, lift.
  destruct (defaultState_valid nowMs Hv) as [d Hd].
  destruct (head (faults fs OpReadFile)) as [[err|]|];
    try (rewrite Hd; by eexists);
    (destruct (files fs !! path) as [[raw|v]|]; simpl;
     [rewrite Hd; by eexists
     |destruct (normalizeState_valid v nowMs Hv) as [n ->]; by eexists
     |rewrite Hd; by eexists]).
Qed.

Lemma tmpPath_fresh path nonce : tmpPath path nonce ≠ path.
Proof.
  unfold tmpPath. induction path as [|a path IH]; [done|].
  intros [= H]. by apply IH.
Qed.

Lemma shouldRetryAsReplace_spec code :
  shouldRetryAsReplace code = true ↔ code ∈ retryableCodes.
Proof.
  unfold shouldRetryAsReplace, retryableCodes.
  rewrite !orb_true_iff, !String.eqb_eq, !elem_of_cons, elem_of_nil. tauto.
Qed.

Lemma recordQwenCompletion_steps stateDir nonce nowMs fs :
  JsDate.validTime nowMs →
  ∃ state,
    let fs1 := mkFs (files fs) (consumed OpReadFile fs)
                 (calls fs ++ [CallReadFile (getQwenLocalQuotaPath stateDir)]) in
    let written := writeStateToDisk (getQwenLocalQuotaPath stateDir) nonce
                     (incremented state nowMs) fs1 in
    readQwenLocalQuotaState stateDir nowMs fs = (inr state, fs1) ∧
    recordQwenCompletion stateDir nonce nowMs fs =
      (written.1 ≫= λ _, inr (incremented state nowMs), written.2).
Proof.
  intros Hv.
  destruct (readStateFromDisk_valid (getQwenLocalQuotaPath stateDir) nowMs fs Hv)
    as [loaded Hread].
  pose proof (applyUtcResetAndPrune_valid loaded nowMs Hv) as Happly.
  simpl in Happly.
  eexists. simpl. split.
  - unfold readQwenLocalQuotaState. rewrite (eff_bind_ok _ _ _ _ _ Hread).
    unfold lift. by rewrite Happly.
  - unfold recordQwenCompletion. rewrite (eff_bind_ok _ _ _ _ _ Hread).
    unfold lift at 1. rewrite Happly.
    unfold mbind at 1, eff_bind at 1. unfold incremented.
    unfold mbind at 1, eff_bind at 1.
    by destruct (writeStateToDisk _ _ _ _) as [[e|[]] fs2].
Qed.

Lemma try_catch_ok {W A} (body : Eff W A) handler w a w' :
  body w = (inr a, w') → try_catch body handler w = (inr a, w').
Proof. intros H. unfold try_catch. by rewrite H. Qed.

Lemma try_catch_err {W A} (body : Eff W A) handler w e w' :
  body w = (inl e, w') → try_catch body handler w = handler e w'.
Proof. intros H. unfold try_catch. by rewrite H. Qed.

Lemma mkdir_ok dir fs :
  unhindered OpMkdir fs →
  mkdir dir fs = (inr (), mkFs (files fs) (consumed OpMkdir fs) (calls fs ++ [CallMkdir dir])).
Proof. intros H. by apply primitive_ok. Qed.

Lemma writeFile_ok path content fs :
  unhindered OpWriteFile fs →
  writeFile path content fs =
    (inr (), mkFs (<[path := content]> (files fs)) (consumed OpWriteFile fs)
               (calls fs ++ [CallWriteFile path content])).
Proof. intros H. by apply primitive_ok. Qed.

Lemma rename_ok src dst content fs :
  unhindered OpRename fs → files fs !! src = Some content →
  rename src dst fs =
    (inr (), mkFs (<[dst := content]> (delete src (files fs))) (consumed OpRename fs)
               (calls fs ++ [CallRename src dst])).
Proof. intros H Hsrc. apply primitive_ok; [done|]. by rewrite Hsrc. Qed.

Lemma rename_fails src dst err fs :
  failsNext OpRename err fs →
  rename src dst fs =
    (inl err, mkFs (files fs) (consumed OpRename fs) (calls fs ++ [CallRename src dst])).
Proof. apply primitive_fails. Qed.

(** The best-effort removal never throws, and touches no other file. *)
Lemma safeRm_result target fs :
  ∃ files',
    safeRm target fs =
      (inr (), mkFs files' (consumed OpRm fs) (calls fs ++ [CallRm target])) ∧
    ∀ other, other ≠ target → files' !! other = files fs !! other.
Proof.
  unfold safeRm, try_catch, rm, primitive.
  destruct (head (faults fs OpRm)) as [[e|]|]; simpl; eexists; (split; [done|]);
    intros other Hne; by rewrite ?lookup_delete_ne.
Qed.

Section WriteSteps.
Context (path nonce : string) (next : QwenLocalQuotaStateFileV1).
Context (fs1 : Fs) (err : JsError).
Context (Hmk : unhindered OpMkdir fs1) (Hwr : unhindered OpWriteFile fs1).
Context (Hrn : failsNext OpRename err fs1).

Let tmp := tmpPath path nonce.
Let written := writeStateToDisk path nonce next fs1.

(** The world in which the handler of the failed move runs. *)
Let fs4 : Fs :=
  mkFs (<[tmp := stringify next]> (files fs1))
    (consumed OpRename (mkFs (files fs1)
       (consumed OpWriteFile (mkFs (files fs1) (consumed OpMkdir fs1) [])) []))
    (calls fs1 ++ [CallMkdir (dirname path);
                   CallWriteFile tmp (stringify next); CallRename tmp path]).

Lemma writeStateToDisk_handler :
  written =
    (if negb (shouldRetryAsReplace (errorCode err))
     then safeRm tmp ;; throw err
     else safeRm path ;; rename tmp path) fs4.
Proof.
  subst written. unfold writeStateToDisk. fold tmp.
  rewrite (eff_bind_ok _ _ _ _ _ (mkdir_ok _ fs1 Hmk)).
  set (fs2 := mkFs _ _ _).
  rewrite (eff_bind_ok _ _ _ _ _ (writeFile_ok tmp (stringify next) fs2 Hwr)).
  set (fs3 := mkFs _ _ _).
  rewrite (try_catch_err _ _ _ _ _ (rename_fails tmp path err fs3 Hrn)).
  subst fs4 fs3 fs2. simpl. by rewrite <- !app_assoc.
Qed.

Lemma writeStateToDisk_retry :
  errorCode err ∈ retryableCodes →
  calls written.2 = calls fs1 ++
    [CallMkdir (dirname path); CallWriteFile tmp (stringify next);
     CallRename tmp path; CallRm path; CallRename tmp path] ∧
  (unhinderedAfter OpRename fs1 →
     written.1 = inr tt ∧ files written.2 !! path = Some (stringify next)) ∧
  (∀ err2, failsAfter OpRename err2 fs1 → written.1 = inl err2).
Proof.
  intros Hcode. apply shouldRetryAsReplace_spec in Hcode.
  rewrite writeStateToDisk_handler, Hcode. simpl.
  destruct (safeRm_result path fs4) as (files5 & Hrm & Hkeep).
  rewrite (eff_bind_ok _ _ _ _ _ Hrm).
  set (fs5 := mkFs files5 _ _).
  assert (files fs5 !! tmp = Some (stringify next)) as Htmp.
  { simpl. rewrite Hkeep by apply tmpPath_fresh. subst fs4. simpl.
    by rewrite lookup_insert_eq. }
  assert (head (faults fs5 OpRename) = head (tail (faults fs1 OpRename))) as Hhead
    by done.
  split; [|split].
  - unfold rename, primitive. rewrite Htmp.
    destruct (head (faults fs5 OpRename)) as [[e|]|]; simpl;
      by rewrite <- !app_assoc.
  - intros Hafter.
    rewrite (rename_ok tmp path (stringify next) fs5);
      [|unfold unhindered; by rewrite Hhead|done].
    simpl. by rewrite lookup_insert_eq.
  - intros err2 Hafter.
    rewrite (rename_fails tmp path err2 fs5); [done|].
    unfold failsNext. by rewrite Hhead.
Qed.

Lemma writeStateToDisk_hard_error :
  errorCode err ∉ retryableCodes →
  written.1 = inl err ∧
  calls written.2 = calls fs1 ++
    [CallMkdir (dirname path); CallWriteFile tmp (stringify next);
     CallRename tmp path; CallRm tmp].
Proof.
  intros Hcode. rewrite <- shouldRetryAsReplace_spec in Hcode.
  apply not_true_is_false in Hcode.
  rewrite writeStateToDisk_handler, Hcode. simpl.
  destruct (safeRm_result tmp fs4) as (files5 & Hrm & _).
  rewrite (eff_bind_ok _ _ _ _ _ Hrm). unfold throw. simpl.
  split; [done|]. by rewrite <- !app_assoc.
Qed.

End WriteSteps.

(** C2. Take a call of [recordQwenCompletion] at a valid time value in
    which the temporary file gets written and the first [rename] of it
    onto the state path fails with [err]. With [state] the state the
    call loaded (what [readQwenLocalQuotaState] returns) and [next] the
    state it means to persist, [next.dayCount = state.dayCount + 1], and:
    - if the code of [err] is EPERM, EACCES, EEXIST or ENOTEMPTY, the
      calls made are the read, [mkdir], [writeFile], the failed [rename],
      one [rm] of the state path and one more [rename] (two in all);
      when that second [rename] is not failed by the platform the call
      returns [next] and the state path holds [next]; when it fails with
      [err2], the call throws [err2];
    - with any other code the call throws [err], after one [rename] and
      the removal of the temporary file. *)
Theorem recordCompletion_rename_retry stateDir nonce nowMs fs err :
  JsDate.validTime nowMs →
  unhindered OpMkdir fs → unhindered OpWriteFile fs →
  failsNext OpRename err fs →
  let path := getQwenLocalQuotaPath stateDir in
  let dir := dirname path in
  let tmp := tmpPath path nonce in
  let result := (recordQwenCompletion stateDir nonce nowMs fs).1 in
  let fs' := (recordQwenCompletion stateDir nonce nowMs fs).2 in
  ∃ state next,
    (readQwenLocalQuotaState stateDir nowMs fs).1 = inr state ∧
    dayCount next = dayCount state + 1 ∧
    (errorCode err ∈ retryableCodes →
       calls fs' = calls fs ++
         [CallReadFile path; CallMkdir dir; CallWriteFile tmp (stringify next);
          CallRename tmp path; CallRm path; CallRename tmp path] ∧
       (unhinderedAfter OpRename fs →
          result = inr next ∧ files fs' !! path = Some (stringify next)) ∧
       (∀ err2, failsAfter OpRename err2 fs → result = inl err2)) ∧
    (errorCode err ∉ retryableCodes →
       result = inl err ∧
       calls fs' = calls fs ++
         [CallReadFile path; CallMkdir dir; CallWriteFile tmp (stringify next);
          CallRename tmp path; CallRm tmp]).
Proof.
  intros Hv Hmk Hwr Hrn path dir tmp result fs'.
  destruct (recordQwenCompletion_steps stateDir nonce nowMs fs Hv)
    as (state & Hread & Hrec).
  subst result fs' tmp dir path. rewrite Hrec, Hread. clear Hrec Hread. simpl.
  set (path := getQwenLocalQuotaPath stateDir).
  set (fs1 := mkFs _ _ _).
  exists state, (incremented state nowMs). split; [done|]. split; [done|].
  split.
  - intros Hcode.
    destruct (writeStateToDisk_retry path nonce (incremented state nowMs) fs1 err)
      as (Hcalls & Hok & Hfail); [done..|].
    rewrite Hcalls. split; [unfold fs1; simpl; by rewrite <- app_assoc|]. split.
    + intros Hafter. destruct (Hok Hafter) as [-> ?]. done.
    + intros err2 Hafter. by rewrite (Hfail err2 Hafter).
  - intros Hcode.
    destruct (writeStateToDisk_hard_error path nonce (incremented state nowMs)
                fs1 err) as (-> & Hcalls); [done..|].
    rewrite Hcalls. unfold fs1; simpl. by rewrite <- app_assoc.
Qed.

Lemma recordCompletion_rename_retry_witness :
  let r := recordQwenCompletion "/state" "4711-1771934400000-9f3a" 1771934400000
             exampleFs in
  ∃ next,
    r.1 = inr next ∧ dayCount next = 4 ∧
    files r.2 !! getQwenLocalQuotaPath "/state" = Some (stringify next) ∧
    length (List.filter isRename (calls r.2)) = 2%nat.
Proof.
  destruct (recordCompletion_rename_retry "/state" "4711-1771934400000-9f3a"
              1771934400000 exampleFs
              (SystemError (Some "EPERM") "destination exists"))
    as (state & next & Hstate & Hnext & Hretry & _).
  - unfold JsDate.validTime. vm_compute. discriminate.
  - intros e. vm_compute. discriminate.
  - intros e. vm_compute. discriminate.
  - reflexivity.
  - destruct Hretry as (Hcalls & Hok & _).
    { apply shouldRetryAsReplace_spec. reflexivity. }
    destruct Hok as [Hres Hfile].
    { intros e. vm_compute. discriminate. }
    exists next. split; [exact Hres|]. split; [|split; [exact Hfile|]].
    + rewrite Hnext. vm_compute in Hstate. injection Hstate as <-. reflexivity.
    + rewrite Hcalls. reflexivity.
Defined.

(** The test "resets day counter at UTC midnight when recording a
    completion": a state of the day before with [dayCount = 42], recorded
    at 2026-02-24T00:00:10Z. *)
Example recordQwenCompletion_midnight_example :
  let now := 1771891210000 in
  let fs := mkFs {[ getQwenLocalQuotaPath "/state" :=
                      stringify (mkQwenState 1 "2026-02-23" 42 [now - 10000] (now - 60000)) ]}
              (λ _, []) [] in
  (recordQwenCompletion "/state" "1-2-3" now fs).1 =
    inr (mkQwenState 1 "2026-02-24" 1 [now - 10000; now] now) ∧
  length (List.filter isRename (calls (recordQwenCompletion "/state" "1-2-3" now fs).2))
    = 1%nat.
Proof. vm_compute. done. Qed.

(** The test "returns a default state when file is missing". *)
Example readQwenLocalQuotaState_missing_example :
  let now := 1771934400000 in
  (readQwenLocalQuotaState "/state" now (mkFs ∅ (λ _, []) [])).1 =
    inr (mkQwenState 1 "2026-02-24" 0 [] now) ∧
  computeQwenQuota (mkQwenState 1 "2026-02-24" 0 [] now) now
    QWEN_DAILY_LIMIT QWEN_RPM_LIMIT =
  inr (mkQuota (mkDayQuota 0 1000 100 "2026-02-25T00:00:00.000Z")
               (mkRpmQuota 0 60 100 None)).
Proof. vm_compute. done. Qed.

(** A state file that is not JSON reads as the default state. *)
Example readQwenLocalQuotaState_corrupt_example :
  let now := 1771934400000 in
  (readQwenLocalQuotaState "/state" now
     (mkFs {[ getQwenLocalQuotaPath "/state" := Json.NotJson "{ dayCount: " ]} (λ _, []) [])).1 =
    inr (mkQwenState 1 "2026-02-24" 0 [] now).
Proof. vm_compute. done. Qed.

(** *** The computed quota *)

Lemma monthOfDayWithinYear_range d leap :
  0 ≤ JsDate.monthOfDayWithinYear d leap ≤ 11.
Proof. unfold JsDate.monthOfDayWithinYear. repeat case_match; lia. Qed.

(** [MakeDay] of the calendar fields of [t], with the day of the month
    advanced by one, is the day after [t]. *)
Lemma MakeDay_next_day t :
  JsDate.MakeDay (JsDate.YearFromTime t) (JsDate.MonthFromTime t)
    (JsDate.DateFromTime t + 1) = JsDate.Day t + 1.
Proof.
  unfold JsDate.MakeDay, JsDate.DateFromTime, JsDate.DayWithinYear.
  pose proof (monthOfDayWithinYear_range
                (JsDate.DayWithinYear t) (JsDate.InLeapYear t)) as Hm.
  fold (JsDate.MonthFromTime t) in Hm.
  rewrite (Z.div_small (JsDate.MonthFromTime t) 12) by lia.
  rewrite (Z.mod_small (JsDate.MonthFromTime t) 12) by lia.
  rewrite Z.add_0_r. fold (JsDate.InLeapYear t). lia.
Qed.

(** The day reset time is the midnight that follows [nowMs], for a
    [nowMs] outside the years 0 to 99 (which [Date.UTC] reads as 1900 to
    1999) and more than a day before the end of the time range. *)
Lemma nextUtcMidnightIso_next_day nowMs :
  JsDate.validTime nowMs →
  ¬ (0 ≤ JsDate.YearFromTime nowMs ≤ 99) →
  (JsDate.Day nowMs + 1) * JsDate.msPerDay ≤ JsDate.maxTime →
  nextUtcMidnightIso nowMs =
    inr (JsDate.isoString ((JsDate.Day nowMs + 1) * JsDate.msPerDay)).
Proof.
  intros Hv Hy Hmax. unfold nextUtcMidnightIso.
  rewrite ofNumber_valid by done. unfold JsDate.UTC.
  destruct ((0 <=? JsDate.YearFromTime nowMs) && (JsDate.YearFromTime nowMs <=? 99))
    eqn:Hyy; [lia|].
  rewrite MakeDay_next_day. unfold JsDate.MakeDate, JsDate.MakeTime.
  rewrite Z.add_0_r.
  assert (JsDate.validTime ((JsDate.Day nowMs + 1) * JsDate.msPerDay)) as Hv'.
  { clear Hy Hyy.
    unfold JsDate.validTime, JsDate.Day, JsDate.msPerDay, JsDate.maxTime in *.
    apply Z.abs_le. apply Z.abs_le in Hv.
    pose proof (Z.div_mod nowMs 86400000).
    pose proof (Z.mod_pos_bound nowMs 86400000). lia. }
  pose proof (ofNumber_valid _ Hv') as Hof. unfold JsDate.ofNumber in Hof.
  rewrite Hof.
  change (JsDate.toISOString
            (JsDate.ofNumber ((JsDate.Day nowMs + 1) * JsDate.msPerDay)) = inr
            (JsDate.isoString ((JsDate.Day nowMs + 1) * JsDate.msPerDay))).
  by rewrite ofNumber_valid.
Qed.

(** In the years 0 to 99 the computed midnight is off by nineteen
    centuries: [Date.UTC] reads a year below 100 as a year of the 1900s. *)
Example nextUtcMidnightIso_two_digit_year :
  JsDate.toISOString (JsDate.ofNumber (-60589296000000)) =
    inr "0050-01-01T00:00:00.000Z" ∧
  nextUtcMidnightIso (-60589296000000) = inr "1950-01-02T00:00:00.000Z".
Proof. vm_compute. done. Qed.

Lemma Math_min_spec x xs :
  Math_min x xs ∈ x :: xs ∧ Forall (λ y, Math_min x xs ≤ y) (x :: xs).
Proof.
  unfold Math_min. induction xs as [|y ys [IHin IHle]]; simpl.
  - split; [by left|]. by repeat constructor.
  - apply Forall_cons in IHle as [Hx Hys].
    destruct (Z.min_spec y (foldr Z.min x ys)) as [[Hlt ->]|[Hge ->]].
    + split; [right; by left|].
      repeat constructor; [lia|done|].
      eapply Forall_impl; [exact Hys|]. simpl. lia.
    + split.
      * apply elem_of_cons in IHin as [->|?]; [by left|right; by right].
      * repeat constructor; [done|lia|done].
Qed.

(** The test "computes RPM from timestamps in the last 60 seconds". *)
Lemma computeQwenQuota_rpm_example :
  let now := 1771934400000 in
  computeQwenQuota
    (mkQwenState 1 "2026-02-24" 50 [now - 61000; now - 30000; now - 1000] now)
    now QWEN_DAILY_LIMIT QWEN_RPM_LIMIT =
  inr (mkQuota (mkDayQuota 50 1000 95 "2026-02-25T00:00:00.000Z")
               (mkRpmQuota 2 60 97 (Some "2026-02-24T12:00:30.000Z"))).
Proof. vm_compute. reflexivity. Qed.

(** C4 at [dayCount = 425] with the default daily limit of 1000: the
    remaining share is 57.5 percent, which the specification's formula
    rounds to 58; the code divides first and multiplies by 100 after, the
    binary64 product is 57.49999999999999, and the code reports 57. *)
Theorem computeQwenQuota_day_percent_rounding :
  let now := 1771934400000 in
  computeQwenQuota (mkQwenState 1 "2026-02-24" 425 [] now) now
    QWEN_DAILY_LIMIT QWEN_RPM_LIMIT =
  inr (mkQuota (mkDayQuota 425 1000 57 "2026-02-25T00:00:00.000Z")
               (mkRpmQuota 0 60 100 None)) ∧
  toPercentRemaining 425 1000 = 57 ∧
  percentRemaining_spec 425 1000 = 58.
Proof. vm_compute. done. Qed.

End LocalQuotaFacts.

Section MessageStoreFacts.
Import Json MessageStore.

Implicit Types (h : Host) (tr : list StoreIO).

Ltac store_step :=
  unfold iterAssistantMessagesForSession, getOpenCodeDbStats, hasJsonExtract,
    validateSessionIdOrThrow, openDbOrNull, getOpenCodeDbPath, sqlSessionExists,
    sqlSelectMessages, sqlSelectData, sqlGetNumber, sqlGetCanary, io,
    try_finally, try_catch, throw, lift, mbind, eff_bind, mret, eff_ret.

Lemma sessionExists_false (db : Database) sid :
  (∀ row, row ∈ session db → srow_id row ≠ sid) →
  existsb (λ row, String.eqb (srow_id row) sid) (session db) = false.
Proof.
  intros H. induction (session db) as [|row rows IH]; [done|]. simpl.
  rewrite IH by (intros ??; apply H; by right).
  destruct (String.eqb_spec (srow_id row) sid) as [Heq|]; [|done].
  destruct (H row); [by left|done].
Qed.

(** C5, as the code has it. A session id without the prefix ["ses_"]
    fails with [SessionNotFoundError] before anything is looked up or
    opened. With a well-formed id: when no store file is available (the
    looked-up path is empty or names no file) the error carries the path
    that [getOpenCodeDbPath()] returns, and no connection is opened; when
    the store is there but has no row for the session, the error carries
    the store path, and the connection is closed. *)
Theorem session_lookup_failures h sid (sinceMs untilMs : option Z) tr :
  let r := iterAssistantMessagesForSession h sid sinceMs untilMs tr in
  let path := dbPathLookup h in
  (String.prefix "ses_" sid = false →
     r = (inl (SessionNotFoundError sid "(invalid session ID format)"), tr)) ∧
  (String.prefix "ses_" sid = true → path = "" →
     r = (inl (SessionNotFoundError sid path),
          tr ++ [IoDbPathLookup; IoDbPathLookup])) ∧
  (String.prefix "ses_" sid = true → path ≠ "" → existsSync h path = false →
     r = (inl (SessionNotFoundError sid path),
          tr ++ [IoDbPathLookup; IoExistsSync path; IoDbPathLookup])) ∧
  (String.prefix "ses_" sid = true → path ≠ "" → existsSync h path = true →
   (∀ row, row ∈ session (databaseAt h path) → srow_id row ≠ sid) →
     r = (inl (SessionNotFoundError sid path),
          tr ++ [IoDbPathLookup; IoExistsSync path; IoOpen path;
                 IoQuery (SqlSessionExists sid); IoClose])).
Proof.
  simpl. split_and!.
  - intros Hp. store_step. by rewrite Hp.
  - intros Hp Hpath. store_step. rewrite Hp, Hpath. simpl.
    by rewrite <- !app_assoc.
  - intros Hp Hpath Hex. store_step. rewrite Hp. simpl.
    apply String.eqb_neq in Hpath. rewrite Hpath, Hex. simpl.
    by rewrite <- !app_assoc.
  - intros Hp Hpath Hex Hrows. store_step. rewrite Hp. simpl.
    apply String.eqb_neq in Hpath. rewrite Hpath, Hex. simpl.
    rewrite sessionExists_false by done. simpl.
    by rewrite <- !app_assoc.
Qed.

Lemma session_lookup_failures_witness :
  iterAssistantMessagesForSession exampleHost "abc" None None []
    = (inl (SessionNotFoundError "abc" "(invalid session ID format)"), []) ∧
  iterAssistantMessagesForSession missingStoreHost "ses_1" None None []
    = (inl (SessionNotFoundError "ses_1" "/data/opencode/opencode.db"),
       [IoDbPathLookup; IoExistsSync "/data/opencode/opencode.db"; IoDbPathLookup]) ∧
  iterAssistantMessagesForSession exampleHost "ses_9" None None []
    = (inl (SessionNotFoundError "ses_9" "/data/opencode/opencode.db"),
       [IoDbPathLookup; IoExistsSync "/data/opencode/opencode.db";
        IoOpen "/data/opencode/opencode.db"; IoQuery (SqlSessionExists "ses_9");
        IoClose]).
Proof.
  pose proof (session_lookup_failures exampleHost "abc" None None []) as (H1 & _).
  pose proof (session_lookup_failures missingStoreHost "ses_1" None None [])
    as (_ & _ & H2 & _).
  pose proof (session_lookup_failures exampleHost "ses_9" None None [])
    as (_ & _ & _ & H3).
  split; [apply H1; reflexivity|]. split.
  - apply H2; [reflexivity|discriminate|reflexivity].
  - apply H3; [reflexivity|discriminate|reflexivity|].
    intros row Hrow. vm_compute in Hrow.
    apply list_elem_of_singleton in Hrow as ->. discriminate.
Defined.

(** C5, as stated, fails: with no store file available the error does
    not carry the text ["(store unavailable)"]. *)
Lemma session_lookup_store_unavailable_counterexample :
  String.prefix "ses_" "ses_1" = true ∧
  (openDbOrNull missingStoreHost []).1 = inr None ∧
  (iterAssistantMessagesForSession missingStoreHost "ses_1" None None []).1
    ≠ inl (SessionNotFoundError "ses_1" "(store unavailable)").
Proof. split; [done|]. split; [done|]. vm_compute. discriminate. Qed.

(** On the example store the iterator returns the one assistant message,
    skipping the user message and the row that does not decode. *)
Example iterAssistantMessagesForSession_example :
  iterAssistantMessagesForSession exampleHost "ses_1" None None [] =
    (inr [mkOpenCodeMessage "msg_2" "ses_1" "assistant" (Some "opencode")
            (Some "gpt-5.2") None None 1200 None None None],
     [IoDbPathLookup; IoExistsSync "/data/opencode/opencode.db";
      IoOpen "/data/opencode/opencode.db"; IoQuery (SqlSessionExists "ses_1");
      IoQuery (SqlSelectMessages (Some "ses_1") None None); IoClose]).
Proof. vm_compute. done. Qed.

(** C9 at a store with one row whose payload is not JSON: on a SQLite
    with [json_extract] the native query raises "malformed JSON" and
    [getOpenCodeDbStats] throws; without it, the scan skips the row and
    the statistics are returned. *)
Theorem getStats_paths_differ_on_malformed_row :
  (getOpenCodeDbStats exampleHost []).1 = inl (SqliteError "malformed JSON") ∧
  (getOpenCodeDbStats exampleHostNoJson []).1 =
    inr (mkStats "/data/opencode/opencode.db" 1 3 1) ∧
  (getOpenCodeDbStats exampleHost []).2 =
    [IoDbPathLookup; IoExistsSync "/data/opencode/opencode.db";
     IoOpen "/data/opencode/opencode.db"; IoQuery SqlCountSessions;
     IoQuery SqlCountMessages; IoQuery SqlJsonCanary;
     IoQuery SqlCountAssistantByJsonExtract; IoClose].
Proof. vm_compute. done. Qed.

End MessageStoreFacts.

Section UsageAggregatorFacts.
Import UsageAggregator.

Context {Rates : Type}.
Context (lookup : string → string → option Rates).
Context (costOf : Rates → TokenBuckets → Z).

Lemma addTokens_assoc a b c :
  addTokens (addTokens a b) c = addTokens a (addTokens b c).
Proof. unfold addTokens. simpl. f_equal; lia. Qed.

Lemma addTokens_comm a b : addTokens a b = addTokens b a.
Proof. unfold addTokens. f_equal; lia. Qed.

Lemma addBucket_assoc a b c :
  addBucket (addBucket a b) c = addBucket a (addBucket b c).
Proof. unfold addBucket. simpl. f_equal; [apply addTokens_assoc|lia..]. Qed.

Lemma addBucket_comm a b : addBucket a b = addBucket b a.
Proof. unfold addBucket. f_equal; [apply addTokens_comm|lia..]. Qed.

Lemma addBucket_noBucket a : addBucket a noBucket = a.
Proof.
  destruct a as [[] ? ?]. unfold addBucket, addTokens. simpl.
  f_equal; [f_equal|..]; lia.
Qed.

Lemma total_bump {K} `{EqDecision K} (k : K) b (l : list (K * Bucket)) :
  total (bump k b l) = addBucket (total l) b.
Proof.
  induction l as [|[k' b'] rest IH]; simpl.
  - by rewrite addBucket_comm.
  - case_decide; simpl.
    + rewrite !addBucket_assoc. f_equal. apply addBucket_comm.
    + by rewrite IH, addBucket_assoc.
Qed.

Lemma total_bumpGrouped p m b l :
  total (bumpGrouped p m b l) = addBucket (total l) b.
Proof.
  induction l as [|[k' b'] rest IH]; simpl.
  - by rewrite addBucket_comm.
  - case_decide; simpl.
    + rewrite !addBucket_assoc. f_equal. apply addBucket_comm.
    + case_match; simpl.
      * rewrite addBucket_assoc. f_equal. apply addBucket_comm.
      * by rewrite IH, addBucket_assoc.
Qed.

Lemma balanced_empty w : balanced (empty w).
Proof. by repeat split. Qed.

Lemma balanced_addMessage acc msg :
  balanced acc → balanced (addMessage lookup costOf acc msg).
Proof.
  intros (Hsm & Hsp & Hse & Hmt & Hmc & Hut & Huc & Hn).
  unfold balanced, addMessage.
  destruct (lookup _ _) as [rates|]; simpl;
    rewrite ?total_bump, ?total_bumpGrouped, ?Hsm, ?Hsp, ?Hse; simpl;
    rewrite ?Hmt, ?Hmc, ?Hut, ?Huc;
    repeat split; try lia;
    unfold addBucket, addTokens; simpl; f_equal; try lia; f_equal; lia.
Qed.

Lemma balanced_foldl msgs acc :
  balanced acc → balanced (foldl (addMessage lookup costOf) acc msgs).
Proof.
  revert acc. induction msgs as [|msg msgs IH]; intros acc Hacc; [done|].
  simpl. apply IH. by apply balanced_addMessage.
Qed.

(** C6. For every window (and session filter) and every list of
    messages, in the result of [aggregateUsage] the tokens of
    [bySourceModel] add up to [totals.priced + totals.unknown]; so do
    those of [bySourceProvider] and [bySession]; [byModel] adds up to
    [totals.priced] and the [unknown] list to [totals.unknown]; and the
    costs and message counts of the source and session lists add up to
    those of [totals]. *)
Theorem aggregate_breakdowns_sum (sinceMs untilMs : option Z)
    (sessionID : option string) (messages : list MessageRecord) :
  let r := aggregateUsage lookup costOf sinceMs untilMs sessionID messages in
  let all := mkBucket (addTokens (priced (totals r)) (unknown (totals r)))
               (totalCostUsd (totals r)) (totalMessageCount (totals r)) in
  tokens (total (bySourceModel r)) = addTokens (priced (totals r)) (unknown (totals r)) ∧
  total (bySourceModel r) = all ∧
  total (bySourceProvider r) = all ∧
  total (bySession r) = all ∧
  tokens (total (byModel r)) = priced (totals r) ∧
  costUsd (total (byModel r)) = totalCostUsd (totals r) ∧
  tokens (total (unknownList r)) = unknown (totals r).
Proof.
  simpl.
  destruct (balanced_foldl
              (List.filter (matches sinceMs untilMs sessionID) messages)
              (empty (sinceMs, untilMs)) (balanced_empty _))
    as (Hsm & Hsp & Hse & Hmt & Hmc & Hut & _).
  split_and!; try done. by rewrite Hsm.
Qed.

End UsageAggregatorFacts.

(* ================================================================== *)
(** * Further properties of the code *)

Section FetchCacheMore.
Import FetchCache.

Implicit Types (s : State) (now m : Z).

Lemma call_hits_cache now m s c :
  cachedToast s = Some c → now - timestamp c < m →
  getOrFetchWithCacheControl now m s = (Returns (Some (message c)), s).
Proof.
  intros Hc Hage. unfold getOrFetchWithCacheControl, getCachedToast.
  rewrite Hc. simpl. by destruct (Z.ltb_spec (now - timestamp c) m); [|lia].
Qed.

(** X1. Once a fetch has resolved with a message that may be cached, every
    call whose clock reading is within its interval of that moment returns
    the message and neither invokes [fetchFn] nor changes the state. *)
Theorem cached_result_served s p tS (out : FetchOut) msg t m :
  out_message out = Some msg → out_cache out ≠ Some false →
  t - tS < m →
  let s' := fetchSettled p (Resolves out) tS s in
  getOrFetchWithCacheControl t m s' = (Returns (Some msg), s').
Proof.
  intros Hmsg Hcache Hage s'.
  apply (call_hits_cache t m s' (mkCachedToast msg tS)); [|done].
  subst s'. unfold fetchSettled. rewrite Hmsg.
  by destruct (out_cache out) as [[]|].
Qed.

Lemma cached_result_served_witness :
  let s' := fetchSettled 0 (Resolves (wrapped (Some "5h 80%"))) 1010
              (getOrFetchWithCacheControl 1000 500 initial).2 in
  getOrFetchWithCacheControl 1509 500 s' = (Returns (Some "5h 80%"), s').
Proof.
  apply (cached_result_served _ 0%nat 1010 (wrapped (Some "5h 80%")) "5h 80%" 1509 500).
  - reflexivity.
  - discriminate.
  - lia.
Defined.

(** X2. With one interval and a clock that does not run backwards, the
    stale entry is never handed out after a cached fetch: a call made once
    the entry has aged [minIntervalMs] finds the throttle window of that
    fetch elapsed as well, and starts the next fetch. *)
Theorem refetch_on_expiry s0 s1 p t0 tS (out : FetchOut) msg t m :
  inFlightPromise s0 = None →
  getOrFetchWithCacheControl t0 m s0 = (Awaits p, s1) →
  t0 ≤ tS →
  out_message out = Some msg → out_cache out ≠ Some false →
  m ≤ t - tS →
  let s2 := fetchSettled p (Resolves out) tS s1 in
  ∃ s3, getOrFetchWithCacheControl t m s2 = (Awaits (nextPromise s2), s3) ∧
        fetchCalls s3 = S (S (fetchCalls s0)) ∧
        lastFetchTime s3 = t ∧ inFlightPromise s3 = Some (nextPromise s2).
Proof.
  intros Hin Hcall Ht Hmsg Hcache Hage s2.
  destruct (call_starts _ _ _ _ _ Hin Hcall) as (_ & _ & _ & _ & Hl & Hn & _).
  assert (cachedToast s2 = Some (mkCachedToast msg tS) ∧ lastFetchTime s2 = t0 ∧
          inFlightPromise s2 = None ∧ fetchCalls s2 = fetchCalls s1)
    as (Hc2 & Hl2 & Hin2 & Hn2).
  { subst s2. unfold fetchSettled. rewrite Hmsg.
    by destruct (out_cache out) as [[]|]. }
  unfold getOrFetchWithCacheControl, getCachedToast. rewrite Hc2. simpl.
  destruct (Z.ltb_spec (t - tS) m); [lia|]. rewrite Hin2.
  unfold shouldFetch. rewrite Hl2.
  destruct (Z.leb_spec m (t - t0)); [|lia]. simpl.
  eexists. split; [done|]. simpl. by rewrite Hn2, Hn.
Qed.

Lemma refetch_on_expiry_witness :
  let s2 := fetchSettled 0 (Resolves (wrapped (Some "5h 80%"))) 1010
              (getOrFetchWithCacheControl 1000 500 initial).2 in
  ∃ s3, getOrFetchWithCacheControl 1510 500 s2 = (Awaits 1, s3) ∧
        fetchCalls s3 = 2%nat ∧ lastFetchTime s3 = 1510 ∧
        inFlightPromise s3 = Some 1%nat.
Proof.
  intros s2.
  destruct (refetch_on_expiry initial (getOrFetchWithCacheControl 1000 500 initial).2
              0%nat 1000 1010 (wrapped (Some "5h 80%")) "5h 80%" 1510 500)
    as (s3 & H); [reflexivity|reflexivity|lia|reflexivity|discriminate|lia|].
  exists s3. exact H.
Defined.

(** X3. [clearCache] forgets everything, a fetch in flight included: the
    next call whose clock reading has reached its interval starts a fetch
    of its own, whatever the state was, and a fetch that was in flight is
    no longer shared. *)
Theorem clearCache_forces_fetch s t m :
  m ≤ t →
  ∃ s', getOrFetchWithCacheControl t m (clearCache s) = (Awaits (nextPromise s), s') ∧
        fetchCalls s' = S (fetchCalls s) ∧
        cachedToast s' = None ∧ lastFetchTime s' = t ∧
        inFlightPromise s' = Some (nextPromise s).
Proof.
  intros Hm. unfold getOrFetchWithCacheControl, getCachedToast, shouldFetch. simpl.
  destruct (Z.leb_spec m (t - 0)); [|lia]. simpl. by eexists.
Qed.

Lemma clearCache_forces_fetch_witness :
  let s1 := (getOrFetchWithCacheControl 1000 500 initial).2 in
  inFlightPromise s1 = Some 0%nat ∧
  ∃ s', getOrFetchWithCacheControl 1001 500 (clearCache s1) = (Awaits 1, s') ∧
        fetchCalls s' = 2%nat ∧ cachedToast s' = None ∧ lastFetchTime s' = 1001 ∧
        inFlightPromise s' = Some 1%nat.
Proof.
  split; [reflexivity|].
  apply (clearCache_forces_fetch (getOrFetchWithCacheControl 1000 500 initial).2
           1001 500).
  lia.
Defined.

(** X4. [updateCache] seeds the slot without touching the fetch
    bookkeeping: calls within their interval of the seeding get the seeded
    message at once, even while a fetch is in flight; and when that fetch
    resolves with a message that may be cached, its message replaces the
    seeded one. *)
Theorem updateCache_seeds s seeded t0 t m p tS (out : FetchOut) msg :
  t - t0 < m →
  out_message out = Some msg → out_cache out ≠ Some false →
  let s' := updateCache seeded t0 s in
  getOrFetchWithCacheControl t m s' = (Returns (Some seeded), s') ∧
  inFlightPromise s' = inFlightPromise s ∧
  lastFetchTime s' = lastFetchTime s ∧
  fetchCalls s' = fetchCalls s ∧
  cachedToast (fetchSettled p (Resolves out) tS s') = Some (mkCachedToast msg tS).
Proof.
  intros Hage Hmsg Hcache s'. split_and!; try done.
  - by apply (call_hits_cache t m s' (mkCachedToast seeded t0)).
  - unfold fetchSettled. rewrite Hmsg. by destruct (out_cache out) as [[]|].
Qed.

Lemma updateCache_seeds_witness :
  let s1 := (getOrFetchWithCacheControl 1000 500 initial).2 in
  let s' := updateCache "seed" 1001 s1 in
  getOrFetchWithCacheControl 1002 500 s' = (Returns (Some "seed"), s') ∧
  inFlightPromise s' = Some 0%nat ∧
  cachedToast (fetchSettled 0 (Resolves (wrapped (Some "new"))) 1010 s')
    = Some (mkCachedToast "new" 1010).
Proof.
  pose proof (updateCache_seeds (getOrFetchWithCacheControl 1000 500 initial).2
                "seed" 1001 1002 500 0%nat 1010 (wrapped (Some "new")) "new")
    as H.
  destruct H as (H1 & H2 & _ & _ & H5); [lia|reflexivity|discriminate|].
  split; [exact H1|]. split; [exact H2|exact H5].
Defined.

End FetchCacheMore.

Section CalendarDayFacts.
Import JsDate CalendarDay LocalQuota.

Lemma string_app_cons a s t : String a s +:+ t = String a (s +:+ t).
Proof. reflexivity. Qed.

Lemma string_app_nil t : "" +:+ t = t.
Proof. reflexivity. Qed.

Lemma string_app_assoc a b c : (a +:+ b) +:+ c = a +:+ (b +:+ c).
Proof.
  induction a as [|x a IH]; [done|].
  by rewrite !string_app_cons, IH.
Qed.

Lemma string_length_app a b :
  String.length (a +:+ b) = (String.length a + String.length b)%nat.
Proof.
  induction a as [|x a IH]; [done|].
  rewrite string_app_cons. simpl. by rewrite IH.
Qed.

Lemma substring_prefix n a b :
  (n ≤ String.length a)%nat →
  String.substring 0 n (a +:+ b) = String.substring 0 n a.
Proof.
  revert a. induction n as [|n IH]; intros a Hn.
  - by destruct a, b.
  - destruct a as [|x a]; simpl in Hn; [lia|].
    rewrite string_app_cons. simpl. rewrite IH; [done|lia].
Qed.

Lemma substring_full a : String.substring 0 (String.length a) a = a.
Proof. induction a as [|x a IH]; [done|]. simpl. by rewrite IH. Qed.

Lemma string_app_inj a a' b b' :
  String.length a = String.length a' → a +:+ b = a' +:+ b' → a = a' ∧ b = b'.
Proof.
  revert a'. induction a as [|x a IH]; intros [|x' a'] Hlen Heq;
    simpl in Hlen; try lia.
  - done.
  - rewrite !string_app_cons in Heq. injection Heq as -> Heq.
    destruct (IH a') as [-> ->]; [lia|done|done].
Qed.

Lemma length_pad w n : String.length (pad w n) = w.
Proof.
  revert n. induction w as [|w IH]; intros n; [done|].
  simpl. rewrite string_length_app, IH. simpl. lia.
Qed.

Lemma digit_inj n n' : digit n = digit n' → n mod 10 = n' mod 10.
Proof.
  unfold digit. intros H.
  pose proof (Z.mod_pos_bound n 10 ltac:(lia)).
  pose proof (Z.mod_pos_bound n' 10 ltac:(lia)).
  apply (f_equal Ascii.N_of_ascii) in H.
  rewrite !Ascii.N_ascii_embedding in H by lia. lia.
Qed.

Lemma pad_inj w n n' :
  0 ≤ n < 10 ^ Z.of_nat w → 0 ≤ n' < 10 ^ Z.of_nat w →
  pad w n = pad w n' → n = n'.
Proof.
  revert n n'. induction w as [|w IH]; intros n n' Hn Hn' Heq.
  - simpl in Hn, Hn'. lia.
  - simpl in Heq. apply string_app_inj in Heq as [Hhi Hlo];
      [|by rewrite !length_pad].
    injection Hlo as Hlo. apply digit_inj in Hlo.
    rewrite Nat2Z.inj_succ, Z.pow_succ_r in Hn, Hn' by lia.
    assert (n / 10 = n' / 10) as Hq.
    { apply IH; [| |done]; Z.div_mod_to_equations; nia. }
    Z.div_mod_to_equations. lia.
Qed.

Lemma yearString_four y : 0 ≤ y ≤ 9999 → yearString y = pad 4 y.
Proof.
  intros Hy. unfold yearString.
  destruct (Z.leb_spec 0 y); [|lia]. by destruct (Z.leb_spec y 9999); [|lia].
Qed.

Lemma length_datePart_four t :
  fourDigitYear t → String.length (datePart t) = 10%nat.
Proof.
  unfold fourDigitYear, datePart. intros Hy. rewrite yearString_four by done.
  by rewrite !string_length_app, !length_pad.
Qed.

Lemma length_datePart t : (10 ≤ String.length (datePart t))%nat.
Proof.
  unfold datePart, yearString.
  destruct ((0 <=? YearFromTime t) && (YearFromTime t <=? 9999));
    [by rewrite !string_length_app, !length_pad|].
  rewrite !string_length_app, !length_pad.
  destruct (YearFromTime t <? 0); simpl; lia.
Qed.

Lemma isoString_datePart t : ∃ rest, isoString t = datePart t +:+ rest.
Proof.
  unfold isoString, datePart. eexists.
  by rewrite !string_app_assoc.
Qed.

Lemma utcDayKey_datePart t :
  validTime t → utcDayKey t = inr (String.substring 0 10 (datePart t)).
Proof.
  intros Hv. rewrite utcDayKey_valid by done.
  destruct (isoString_datePart t) as [rest ->].
  by rewrite substring_prefix by apply length_datePart.
Qed.

Lemma datePart_same_day t1 t2 : Day t1 = Day t2 → datePart t1 = datePart t2.
Proof.
  intros Hd. unfold datePart, DateFromTime, MonthFromTime, DayWithinYear,
    InLeapYear, YearFromTime. by rewrite Hd.
Qed.

(** The day number is determined by the calendar fields. *)
Lemma Day_of_fields t :
  Day t = DayFromYear (YearFromTime t)
          + monthStart (MonthFromTime t) (InLeapYear t) + DateFromTime t - 1.
Proof. unfold DateFromTime, DayWithinYear. lia. Qed.

Lemma datePart_inj t1 t2 :
  fourDigitYear t1 → fourDigitYear t2 →
  datePart t1 = datePart t2 → Day t1 = Day t2.
Proof.
  unfold fourDigitYear. intros Hy1 Hy2 Heq.
  unfold datePart in Heq. rewrite !yearString_four in Heq by done.
  apply string_app_inj in Heq as [HY Heq]; [|by rewrite !length_pad].
  apply string_app_inj in Heq as [_ Heq]; [|done].
  apply string_app_inj in Heq as [HM Heq]; [|by rewrite !length_pad].
  apply string_app_inj in Heq as [_ HD]; [|done].
  pose proof (monthOfDayWithinYear_range (DayWithinYear t1) (InLeapYear t1)) as Hm1.
  pose proof (monthOfDayWithinYear_range (DayWithinYear t2) (InLeapYear t2)) as Hm2.
  fold (MonthFromTime t1) in Hm1. fold (MonthFromTime t2) in Hm2.
  pose proof (DateFromTime_range t1). pose proof (DateFromTime_range t2).
  apply pad_inj in HY; [|simpl; lia..].
  apply pad_inj in HM; [|simpl; lia..].
  apply pad_inj in HD; [|simpl; lia..].
  rewrite (Day_of_fields t1), (Day_of_fields t2).
  unfold InLeapYear. rewrite HY, HD.
  replace (MonthFromTime t1) with (MonthFromTime t2) by lia. done.
Qed.

Lemma utcDayKey_four t :
  validTime t → fourDigitYear t → utcDayKey t = inr (datePart t).
Proof.
  intros Hv Hy. rewrite utcDayKey_datePart by done.
  rewrite <- (length_datePart_four t Hy). by rewrite substring_full.
Qed.

(** X5. For time values in the years 0 to 9999, the day key of
    [utcDayKey] is a ten-character string that identifies the UTC day: two
    time values have the same key exactly when they lie in the same day of
    86400000 ms counted from the epoch. *)
Theorem utcDayKey_identifies_day t1 t2 :
  validTime t1 → validTime t2 → fourDigitYear t1 → fourDigitYear t2 →
  ∃ k1 k2, utcDayKey t1 = inr k1 ∧ utcDayKey t2 = inr k2 ∧
           String.length k1 = 10%nat ∧
           (k1 = k2 ↔ t1 / 86400000 = t2 / 86400000).
Proof.
  intros Hv1 Hv2 Hy1 Hy2.
  exists (datePart t1), (datePart t2).
  rewrite !utcDayKey_four by done.
  split; [done|]. split; [done|]. split; [by apply length_datePart_four|].
  split; [by apply datePart_inj|apply datePart_same_day].
Qed.

Lemma utcDayKey_identifies_day_witness :
  ∃ k1 k2, utcDayKey 1771891199999 = inr k1 ∧ utcDayKey 1771891200000 = inr k2 ∧
           String.length k1 = 10%nat ∧
           (k1 = k2 ↔ 1771891199999 / 86400000 = 1771891200000 / 86400000).
Proof.
  apply (utcDayKey_identifies_day 1771891199999 1771891200000).
  - unfold validTime. vm_compute. discriminate.
  - unfold validTime. vm_compute. discriminate.
  - unfold fourDigitYear. vm_compute. split; discriminate.
  - unfold fourDigitYear. vm_compute. split; discriminate.
Defined.

End CalendarDayFacts.

Section LocalQuotaMore.
Import JsDate CalendarDay Json LocalQuota StateShape.

Implicit Types (s : QwenLocalQuotaStateFileV1) (nowMs : Z).

(** X6. A state normalised at [t1] keeps its [dayCount] when it is
    normalised again at a [t2] of the same UTC day, and loses it at a [t2]
    of any other day (time values in the years 0 to 9999). *)
Theorem dayCount_reset_on_day_change s t1 t2 :
  validTime t1 → validTime t2 → fourDigitYear t1 → fourDigitYear t2 →
  ∃ s1 s2,
    applyUtcResetAndPrune s t1 = inr s1 ∧
    applyUtcResetAndPrune s1 t2 = inr s2 ∧
    (t1 / 86400000 = t2 / 86400000 → dayCount s2 = dayCount s1) ∧
    (t1 / 86400000 ≠ t2 / 86400000 → dayCount s2 = 0).
Proof.
  intros Hv1 Hv2 Hy1 Hy2.
  pose proof (applyUtcResetAndPrune_valid s t1 Hv1) as H1. simpl in H1.
  eexists _, _. split; [exact H1|].
  rewrite (applyUtcResetAndPrune_valid _ t2 Hv2). simpl. split; [done|].
  pose proof (utcDayKey_valid t1 Hv1) as K1. rewrite utcDayKey_four in K1 by done.
  pose proof (utcDayKey_valid t2 Hv2) as K2. rewrite utcDayKey_four in K2 by done.
  injection K1 as <-. injection K2 as <-.
  split; intros Hd.
  - rewrite (datePart_same_day t1 t2 Hd). by rewrite String.eqb_refl.
  - destruct (String.eqb_spec (datePart t1) (datePart t2)) as [Heq|]; [|done].
    destruct Hd. by apply datePart_inj.
Qed.

Lemma dayCount_reset_on_day_change_witness :
  ∃ s1 s2,
    applyUtcResetAndPrune (mkQwenState 1 "2026-02-23" 42 [] 1) 1771891199999 = inr s1 ∧
    applyUtcResetAndPrune s1 1771891200000 = inr s2 ∧
    dayCount s1 = 42 ∧ dayCount s2 = 0.
Proof.
  destruct (dayCount_reset_on_day_change (mkQwenState 1 "2026-02-23" 42 [] 1)
              1771891199999 1771891200000)
    as (s1 & s2 & H1 & H2 & _ & Hreset).
  - unfold validTime. vm_compute. discriminate.
  - unfold validTime. vm_compute. discriminate.
  - unfold fourDigitYear. vm_compute. split; discriminate.
  - unfold fourDigitYear. vm_compute. split; discriminate.
  - exists s1, s2. split; [exact H1|]. split; [exact H2|]. split.
    + vm_compute in H1. injection H1 as <-. reflexivity.
    + apply Hreset. vm_compute. discriminate.
Defined.

(** X19. [applyUtcResetAndPrune] at a valid time value [nowMs] of the
    years 0 to 9999. The state returned has as [recent] the timestamps
    of [s.recent] in [[nowMs - windowMs, nowMs]], in their order, cut
    down to its last [MAX_RECENT_TIMESTAMPS] entries; as [utcDay] the
    calendar date of [nowMs], written YYYY-MM-DD; as [dayCount] 0 when
    [s.utcDay] is another text and [s.dayCount] when it is that date:
    for an [s.utcDay] that is the date of a time [t0], [dayCount] is
    kept exactly when [t0] and [nowMs] are of the same UTC day. Applying
    the transform to the state returned, at the same [nowMs], gives it
    back. *)
Theorem applyUtcResetAndPrune_calendar s nowMs :
  validTime nowMs → fourDigitYear nowMs →
  ∃ s',
    applyUtcResetAndPrune s nowMs = inr s' ∧
    recent s' = slice_last MAX_RECENT_TIMESTAMPS (filter (inWindow nowMs) (recent s)) ∧
    (∀ ts, ts ∈ recent s' → ts ∈ recent s ∧ inWindow nowMs ts) ∧
    (length (recent s') ≤ MAX_RECENT_TIMESTAMPS)%nat ∧
    ((length (filter (inWindow nowMs) (recent s)) ≤ MAX_RECENT_TIMESTAMPS)%nat →
     recent s' = filter (inWindow nowMs) (recent s)) ∧
    utcDay s' = datePart nowMs ∧
    (utcDay s ≠ datePart nowMs → dayCount s' = 0) ∧
    (utcDay s = datePart nowMs → dayCount s' = dayCount s) ∧
    (∀ t0, fourDigitYear t0 → utcDay s = datePart t0 →
       dayCount s' = if decide (Day t0 = Day nowMs) then dayCount s else 0) ∧
    applyUtcResetAndPrune s' nowMs = inr s'.
Proof.
  intros Hv Hy.
  pose proof (utcDayKey_valid nowMs Hv) as Hkey.
  rewrite utcDayKey_four in Hkey by done. injection Hkey as Hkey.
  pose proof (applyUtcResetAndPrune_valid s nowMs Hv) as Hres.
  simpl in Hres. rewrite <- Hkey in Hres.
  set (kept := slice_last MAX_RECENT_TIMESTAMPS (filter (inWindow nowMs) (recent s)))
    in *.
  eexists. split; [exact Hres|]. simpl. split_and!.
  - done.
  - intros ts Hts. split.
    + eapply elem_of_suffix in Hts; [|apply slice_last_suffix].
      by apply list_elem_of_filter in Hts as [_ ?].
    + by eapply Forall_forall in Hts; [|apply pruned_in_window].
  - apply slice_last_length.
  - apply slice_last_short.
  - done.
  - intros Hne. by destruct (String.eqb_spec (utcDay s) (datePart nowMs)).
  - intros Heq. by destruct (String.eqb_spec (utcDay s) (datePart nowMs)).
  - intros t0 Hy0 Hday. rewrite Hday.
    destruct (String.eqb_spec (datePart t0) (datePart nowMs)) as [Heq|Hne];
      case_decide as Hd; try done.
    + destruct Hd. by apply datePart_inj.
    + destruct Hne. by apply datePart_same_day.
  - rewrite applyUtcResetAndPrune_valid by done. simpl.
    rewrite <- Hkey, String.eqb_refl.
    rewrite (filter_all _ kept) by apply pruned_in_window.
    by rewrite slice_last_short by apply slice_last_length.
Qed.

Lemma applyUtcResetAndPrune_calendar_witness :
  ∃ s', applyUtcResetAndPrune
          (mkQwenState 1 "2026-02-23" 42 [1771891150000; 1771891200000] 1771891150000)
          1771891210000 = inr s' ∧
        utcDay s' = "2026-02-24" ∧ dayCount s' = 0 ∧
        recent s' = [1771891150000; 1771891200000] ∧
        applyUtcResetAndPrune s' 1771891210000 = inr s'.
Proof.
  destruct (applyUtcResetAndPrune_calendar
    (mkQwenState 1 "2026-02-23" 42 [1771891150000; 1771891200000] 1771891150000)
    1771891210000) as (s' & Hr & Hrec & _ & _ & _ & Hu & H0 & _ & _ & Hi).
  - unfold validTime. vm_compute. discriminate.
  - unfold fourDigitYear. vm_compute. split; discriminate.
  - exists s'. split; [exact Hr|]. split; [rewrite Hu; reflexivity|].
    split; [apply H0; vm_compute; discriminate|]. split; [|exact Hi].
    rewrite Hrec. reflexivity.
Defined.

Lemma omap_positiveNumber (xs : list Z) :
  Forall (λ ts, 0 < ts) xs → omap positiveNumber (JNum <$> xs) = xs.
Proof.
  induction 1 as [|x xs Hx _ IH]; [done|].
  change (omap positiveNumber (JNum <$> x :: xs))
    with (match positiveNumber (JNum x) with
          | Some y => y :: omap positiveNumber (JNum <$> xs)
          | None => omap positiveNumber (JNum <$> xs)
          end).
  rewrite IH. simpl. by destruct (Z.ltb_spec 0 x); [|lia].
Qed.

Lemma geZero_trunc q : JsNumber.geZero q = true → 0 ≤ JsNumber.Math_trunc q.
Proof.
  intros Hq. unfold JsNumber.Math_trunc. rewrite Hq.
  apply QArith_base.Qle_bool_iff, Qround.Qfloor_resp_le in Hq.
  by rewrite Qround.Qfloor_Z in Hq.
Qed.

Lemma gtZero_trunc q : JsNumber.gtZero q = true → 0 ≤ JsNumber.Math_trunc q.
Proof.
  intros Hq. apply geZero_trunc. apply QArith_base.Qle_bool_iff.
  apply QArith_base.Qlt_le_weak, QArith_base.Qnot_le_lt.
  intros Hle. apply QArith_base.Qle_bool_iff in Hle.
  unfold JsNumber.gtZero in Hq. by rewrite Hle in Hq.
Qed.

Lemma positiveNumber_bound v n : positiveNumber v = Some n → 0 ≤ n.
Proof.
  destruct v as [| |m|q| | |]; simpl; try done.
  - destruct (Z.ltb_spec 0 m); intros [= <-]; lia.
  - destruct (JsNumber.gtZero q) eqn:Hq; intros [= <-]. by apply gtZero_trunc.
Qed.

Lemma omap_positiveNumber_bound (vs : list value) :
  Forall (λ ts, 0 ≤ ts) (omap positiveNumber vs).
Proof.
  induction vs as [|v vs IH]; [constructor|].
  change (omap positiveNumber (v :: vs))
    with (match positiveNumber v with
          | Some y => y :: omap positiveNumber vs
          | None => omap positiveNumber vs
          end).
  destruct (positiveNumber v) as [n|] eqn:Hn; [|done].
  constructor; [by eapply positiveNumber_bound|done].
Qed.

Lemma normalizeState_stringify_id s nowMs :
  wellFormedState s →
  (parse (stringify s) ≫= λ v, normalizeState v nowMs) = inr s.
Proof.
  intros (Hver & Hday & Hcount & Hrecent & Hupd).
  destruct s as [ver day count rec upd]. simpl in *. subst ver.
  unfold normalizeState. simpl.
  rewrite omap_positiveNumber by done.
  rewrite Hday. simpl.
  destruct (Z.leb_spec 0 count); [|lia].
  by destruct (Z.ltb_spec 0 upd); [|lia].
Qed.

(** X7. What [writeStateToDisk] serialises reads back unchanged: for a
    well-formed state, [normalizeState (JSON.parse (JSON.stringify state))]
    is the state itself, whatever the clock reading, and so
    [readStateFromDisk] returns the state from a file that holds its
    serialisation, when the read is not failed. *)
Theorem normalizeState_stringify s nowMs path fs :
  wellFormedState s →
  (parse (stringify s) ≫= λ v, normalizeState v nowMs) = inr s ∧
  (unhindered OpReadFile fs → files fs !! path = Some (stringify s) →
   (readStateFromDisk path nowMs fs).1 = inr s).
Proof.
  intros Hwf. split; [by apply normalizeState_stringify_id|].
  intros Hok Hfile. unfold readStateFromDisk.
  erewrite try_catch_ok; [done|].
  erewrite eff_bind_ok; [|apply primitive_ok; [done|by rewrite Hfile]].
  unfold lift. by rewrite (normalizeState_stringify_id s nowMs Hwf).
Qed.

Lemma normalizeState_stringify_witness :
  let s := mkQwenState 1 "2026-02-24" 3 [1771934380000] 1771934380000 in
  (parse (stringify s) ≫= λ v, normalizeState v 0) = inr s ∧
  (readStateFromDisk "/state/q.json" 0
     (mkFs {[ "/state/q.json" := stringify s ]} (λ _, []) [])).1 = inr s.
Proof.
  intros s.
  destruct (normalizeState_stringify s 0 "/state/q.json"
              (mkFs {[ "/state/q.json" := stringify s ]} (λ _, []) []))
    as [Hparse Hread].
  - repeat split; try reflexivity; try discriminate. repeat constructor.
  - split; [exact Hparse|]. apply Hread.
    + intros e. vm_compute. discriminate.
    + reflexivity.
Defined.

Lemma length_substring n a :
  (n ≤ String.length a)%nat → String.length (String.substring 0 n a) = n.
Proof.
  revert a. induction n as [|n IH]; intros a Hn; [by destruct a|].
  destruct a as [|x a]; simpl in *; [lia|]. rewrite IH; [done|lia].
Qed.

Lemma utcDayKey_length nowMs :
  validTime nowMs → ∃ k, utcDayKey nowMs = inr k ∧ String.length k = 10%nat.
Proof.
  intros Hv. rewrite utcDayKey_datePart by done. eexists. split; [done|].
  apply length_substring, length_datePart.
Qed.

Lemma normalizeState_shape (raw : value) nowMs :
  validTime nowMs → 0 < nowMs →
  ∃ s, normalizeState raw nowMs = inr s ∧ checkedState s.
Proof.
  intros Hv Hpos. destruct (utcDayKey_length nowMs Hv) as (k & Hk & Hlen).
  assert (Hdef : ∃ s, defaultState nowMs = inr s ∧ checkedState s).
  { unfold defaultState. rewrite Hk. eexists; split; [done|].
    repeat split; simpl; (done || lia). }
  assert (Hday : ∀ v, ∃ d,
    match get "utcDay" v with
    | Some (JStr d) => if (String.length d =? 10)%nat then mret d else utcDayKey nowMs
    | _ => utcDayKey nowMs
    end = inr d ∧ String.length d = 10%nat).
  { intros v. destruct (get "utcDay" v) as [[| | | |d| |]|]; eauto.
    destruct (Nat.eqb_spec (String.length d) 10); eauto. }
  assert (Hobj : ∀ v, (∃ xs, v = JArr xs) ∨ (∃ fs, v = JObj fs) →
    ∃ s, normalizeState v nowMs = inr s ∧ checkedState s).
  { intros v Hv'.
    assert (normalizeState v nowMs =
      (match get "utcDay" v with
       | Some (JStr d) => if (String.length d =? 10)%nat then mret d else utcDayKey nowMs
       | _ => utcDayKey nowMs
       end ≫= λ day0,
         mret {| version := QWEN_LOCAL_QUOTA_STATE_VERSION;
                 utcDay := day0;
                 dayCount := match get "dayCount" v with
                             | Some (JNum n) => if 0 <=? n then n else 0
                             | Some (JFrac q) =>
                                 if JsNumber.geZero q then JsNumber.Math_trunc q else 0
                             | _ => 0
                             end;
                 recent := omap positiveNumber
                             match get "recent" v with Some (JArr xs) => xs | _ => [] end;
                 updatedAt := default nowMs (get "updatedAt" v ≫= positiveNumber) |}))
      as -> by (by destruct Hv' as [[xs ->]|[fs ->]]).
    destruct (Hday v) as (d & -> & Hd). eexists; split; [done|].
    repeat split; simpl; [done| |apply omap_positiveNumber_bound|].
    - destruct (get "dayCount" v) as [[| |n|q| | |]|]; try lia.
      + destruct (Z.leb_spec 0 n); lia.
      + destruct (JsNumber.geZero q) eqn:Hq; [by apply geZero_trunc|lia].
    - destruct (get "updatedAt" v ≫= positiveNumber) as [n|] eqn:Hn; simpl; [|lia].
      destruct (get "updatedAt" v) as [u|]; [|done]. by eapply positiveNumber_bound. }
  destruct raw; try exact Hdef; apply Hobj; eauto.
Qed.

(** X8. Whatever JSON value the state file holds, at a valid positive
    clock reading [normalizeState] returns a state of version 1 with a
    ten-character day, a count that is not negative, and timestamps and
    an [updatedAt] that are not negative either. They can be 0: the code
    tests [x > 0] before it truncates, so that the file
    [{"recent": [0.5], "updatedAt": 0.5}] is read with the timestamp 0 and
    [updatedAt] 0. *)
Theorem normalizeState_checked (raw : value) nowMs :
  validTime nowMs → 0 < nowMs →
  (∃ s, normalizeState raw nowMs = inr s ∧ checkedState s) ∧
  (∃ s, normalizeState halves nowMs = inr s ∧ dayCount s = 0 ∧
        recent s = [0] ∧ updatedAt s = 0).
Proof.
  intros Hv Hpos. split; [by apply normalizeState_shape|].
  destruct (utcDayKey_length nowMs Hv) as (k & Hk & _).
  unfold normalizeState, halves. simpl. rewrite Hk. by eexists.
Qed.

Lemma normalizeState_checked_witness :
  (∃ s, normalizeState
          (JObj [("dayCount", JFrac (QArith_base.Qmake 7 2));
                 ("recent", JArr [JNum 7; JStr "x"; JNum (-1)]);
                 ("utcDay", JStr "yesterday")])
          1771934400000 = inr s ∧ checkedState s ∧ dayCount s = 3) ∧
  normalizeState halves 1771934400000 =
    inr (mkQwenState 1 "2026-02-24" 0 [0] 0).
Proof.
  destruct (normalizeState_checked
              (JObj [("dayCount", JFrac (QArith_base.Qmake 7 2));
                     ("recent", JArr [JNum 7; JStr "x"; JNum (-1)]);
                     ("utcDay", JStr "yesterday")]) 1771934400000)
    as [(s & Hs & Hshape) _].
  - unfold validTime. vm_compute. discriminate.
  - lia.
  - split; [|vm_compute; reflexivity].
    exists s. split; [exact Hs|]. split; [exact Hshape|].
    vm_compute in Hs. injection Hs as <-. reflexivity.
Defined.

(** *** Reading and recording *)

Lemma defaultState_shape nowMs :
  validTime nowMs → 0 < nowMs →
  ∃ s, defaultState nowMs = inr s ∧ checkedState s.
Proof. intros Hv Hpos. apply (normalizeState_shape JNull nowMs Hv Hpos). Qed.

Lemma readStateFromDisk_shape path nowMs fs :
  validTime nowMs → 0 < nowMs →
  ∃ loaded,
    readStateFromDisk path nowMs fs =
      (inr loaded,
       mkFs (files fs) (consumed OpReadFile fs) (calls fs ++ [CallReadFile path])) ∧
    checkedState loaded.
Proof.
  intros Hv Hpos.
  unfold readStateFromDisk, try_catch, mbind, eff_bind, readFile, primitive, lift.
  destruct (defaultState_shape nowMs Hv Hpos) as (d & Hd & Hwf).
  destruct (head (faults fs OpReadFile)) as [[err|]|];
    try (rewrite Hd; by eexists);
    (destruct (files fs !! path) as [[raw|v]|]; simpl;
     [rewrite Hd; by eexists
     |destruct (normalizeState_shape v nowMs Hv Hpos) as (n & -> & ?); by eexists
     |rewrite Hd; by eexists]).
Qed.

Lemma readStateFromDisk_hit path nowMs fs s :
  unhindered OpReadFile fs →
  files fs !! path = Some (stringify s) → wellFormedState s →
  readStateFromDisk path nowMs fs =
    (inr s, mkFs (files fs) (consumed OpReadFile fs) (calls fs ++ [CallReadFile path])).
Proof.
  intros Hok Hfile Hwf. unfold readStateFromDisk.
  apply try_catch_ok.
  assert (readFile path fs =
            (inr (stringify s),
             mkFs (files fs) (consumed OpReadFile fs) (calls fs ++ [CallReadFile path])))
    as Hread by (apply primitive_ok; [done|by rewrite Hfile]).
  rewrite (eff_bind_ok _ _ _ _ _ Hread). unfold lift.
  by rewrite (normalizeState_stringify_id s nowMs Hwf).
Qed.



Lemma writeStateToDisk_ok path nonce next fs1 :
  unhindered OpMkdir fs1 → unhindered OpWriteFile fs1 → unhindered OpRename fs1 →
  writeStateToDisk path nonce next fs1 =
    (inr (),
     mkFs (<[path := stringify next]>
             (delete (tmpPath path nonce)
                (<[tmpPath path nonce := stringify next]> (files fs1))))
          (consumed OpRename (mkFs ∅
             (consumed OpWriteFile (mkFs ∅ (consumed OpMkdir fs1) [])) []))
          (calls fs1 ++ [CallMkdir (dirname path);
                         CallWriteFile (tmpPath path nonce) (stringify next);
                         CallRename (tmpPath path nonce) path])).
Proof.
  intros Hmk Hwr Hrn. unfold writeStateToDisk.
  rewrite (eff_bind_ok _ _ _ _ _ (mkdir_ok _ fs1 Hmk)).
  set (fs2 := mkFs _ _ _).
  rewrite (eff_bind_ok _ _ _ _ _
             (writeFile_ok (tmpPath path nonce) (stringify next) fs2 Hwr)).
  set (fs3 := mkFs _ _ _).
  rewrite (try_catch_ok _ _ _ _ _
             (rename_ok (tmpPath path nonce) path (stringify next) fs3 Hrn
                (lookup_insert_eq _ _ _))).
  subst fs3 fs2. simpl. by rewrite <- !app_assoc.
Qed.

Lemma recordQwenCompletion_ok stateDir nonce nowMs fs :
  validTime nowMs →
  unhindered OpMkdir fs → unhindered OpWriteFile fs → unhindered OpRename fs →
  let path := getQwenLocalQuotaPath stateDir in
  let tmp := tmpPath path nonce in
  ∃ state,
    readQwenLocalQuotaState stateDir nowMs fs =
      (inr state,
       mkFs (files fs) (consumed OpReadFile fs) (calls fs ++ [CallReadFile path])) ∧
    recordQwenCompletion stateDir nonce nowMs fs =
      (inr (incremented state nowMs),
       mkFs (<[path := stringify (incremented state nowMs)]>
               (delete tmp (<[tmp := stringify (incremented state nowMs)]> (files fs))))
            (afterRecord fs)
            (calls fs ++ [CallReadFile path; CallMkdir (dirname path);
                          CallWriteFile tmp (stringify (incremented state nowMs));
                          CallRename tmp path])).
Proof.
  intros Hv Hmk Hwr Hrn path tmp.
  destruct (recordQwenCompletion_steps stateDir nonce nowMs fs Hv)
    as (state & Hread & Hrec).
  exists state. split; [exact Hread|]. rewrite Hrec. clear Hrec Hread.
  fold path. set (fs1 := mkFs _ _ _).
  rewrite (writeStateToDisk_ok path nonce (incremented state nowMs) fs1) by done.
  simpl. fold tmp. unfold afterRecord. by rewrite <- !app_assoc.
Qed.

(** X10. A recording that no call of [mkdir], [writeFile] or [rename]
    fails: [recordQwenCompletion] returns the state read with its
    [dayCount] one higher and [nowMs] appended; the state path holds that
    state, the temporary file is gone, every other file is as before, and
    the calls made are the read, [mkdir], [writeFile] and one [rename],
    with no [rm]. *)
Theorem recordQwenCompletion_success stateDir nonce nowMs fs :
  validTime nowMs →
  unhindered OpMkdir fs → unhindered OpWriteFile fs → unhindered OpRename fs →
  let path := getQwenLocalQuotaPath stateDir in
  let tmp := tmpPath path nonce in
  let r := recordQwenCompletion stateDir nonce nowMs fs in
  ∃ state next,
    (readQwenLocalQuotaState stateDir nowMs fs).1 = inr state ∧
    r.1 = inr next ∧
    dayCount next = dayCount state + 1 ∧
    recent next = slice_last MAX_RECENT_TIMESTAMPS (recent state ++ [nowMs]) ∧
    utcDay next = utcDay state ∧
    files r.2 !! path = Some (stringify next) ∧
    files r.2 !! tmp = None ∧
    (∀ other, other ≠ path → other ≠ tmp → files r.2 !! other = files fs !! other) ∧
    calls r.2 = calls fs ++
      [CallReadFile path; CallMkdir (dirname path);
       CallWriteFile tmp (stringify next); CallRename tmp path].
Proof.
  intros Hv Hmk Hwr Hrn path tmp r.
  destruct (recordQwenCompletion_ok stateDir nonce nowMs fs Hv Hmk Hwr Hrn)
    as (state & Hread & Hrec).
  subst r. rewrite Hrec, Hread. simpl. fold path tmp.
  exists state, (incremented state nowMs).
  split; [done|]. split; [done|]. split; [done|]. split; [done|]. split; [done|].
  split; [by rewrite lookup_insert_eq|].
  split.
  - rewrite lookup_insert_ne by (intros Heq; by apply (tmpPath_fresh path nonce)).
    by rewrite lookup_delete_eq.
  - split; [|done]. intros other Hp Ht.
    rewrite lookup_insert_ne by done. rewrite lookup_delete_ne by done.
    by rewrite lookup_insert_ne.
Qed.

Lemma recordQwenCompletion_success_witness :
  let fs := mkFs {[ getQwenLocalQuotaPath "/state" :=
                      stringify (mkQwenState 1 "2026-02-24" 3 [1771934380000]
                                   1771934380000) ]} (λ _, []) [] in
  let r := recordQwenCompletion "/state" "4711-1771934400000-9f3a" 1771934400000 fs in
  ∃ next,
    r.1 = inr next ∧ dayCount next = 4 ∧
    files r.2 !! getQwenLocalQuotaPath "/state" = Some (stringify next) ∧
    files r.2 !! tmpPath (getQwenLocalQuotaPath "/state") "4711-1771934400000-9f3a"
      = None.
Proof.
  intros fs r.
  destruct (recordQwenCompletion_success "/state" "4711-1771934400000-9f3a"
              1771934400000 fs)
    as (state & next & Hstate & Hres & Hcount & _ & _ & Hfile & Htmp & _).
  - unfold validTime. vm_compute. discriminate.
  - intros e. vm_compute. discriminate.
  - intros e. vm_compute. discriminate.
  - intros e. vm_compute. discriminate.
  - exists next. split; [exact Hres|]. split; [|split; [exact Hfile|exact Htmp]].
    rewrite Hcount. vm_compute in Hstate. injection Hstate as <-. reflexivity.
Defined.

Lemma readQwenLocalQuotaState_shape stateDir nowMs fs :
  validTime nowMs → 0 < nowMs →
  ∃ state,
    readQwenLocalQuotaState stateDir nowMs fs =
      (inr state,
       mkFs (files fs) (consumed OpReadFile fs)
            (calls fs ++ [CallReadFile (getQwenLocalQuotaPath stateDir)])) ∧
    version state = QWEN_LOCAL_QUOTA_STATE_VERSION ∧
    utcDayKey nowMs = inr (utcDay state) ∧
    0 ≤ dayCount state ∧
    Forall (inWindow nowMs) (recent state).
Proof.
  intros Hv Hpos.
  destruct (readStateFromDisk_shape (getQwenLocalQuotaPath stateDir) nowMs fs Hv Hpos)
    as (loaded & Hread & _ & _ & Hcount & _).
  pose proof (applyUtcResetAndPrune_valid loaded nowMs Hv) as Happly.
  simpl in Happly.
  unfold readQwenLocalQuotaState. rewrite (eff_bind_ok _ _ _ _ _ Hread).
  unfold lift. rewrite Happly.
  eexists. split; [done|]. simpl. split; [done|].
  split; [by apply utcDayKey_valid|]. split; [|apply pruned_in_window].
  destruct (String.eqb _ _); [done|lia].
Qed.

Lemma appended_in_window nowMs (xs : list Z) :
  Forall (inWindow nowMs) xs →
  Forall (inWindow nowMs) (slice_last MAX_RECENT_TIMESTAMPS (xs ++ [nowMs])).
Proof.
  intros Hxs. apply Forall_forall. intros ts Hts.
  eapply elem_of_suffix in Hts; [|apply slice_last_suffix].
  apply elem_of_app in Hts as [Hts|Hts].
  - by eapply Forall_forall in Hts.
  - apply list_elem_of_singleton in Hts as ->.
    unfold inWindow, RPM_WINDOW_MS. lia.
Qed.

(** The state that a recording persists is well-formed and already
    normalised for the time of the recording. *)
Lemma incremented_shape state nowMs :
  validTime nowMs → RPM_WINDOW_MS < nowMs →
  version state = QWEN_LOCAL_QUOTA_STATE_VERSION →
  utcDayKey nowMs = inr (utcDay state) →
  0 ≤ dayCount state →
  Forall (inWindow nowMs) (recent state) →
  wellFormedState (incremented state nowMs) ∧
  applyUtcResetAndPrune (incremented state nowMs) nowMs = inr (incremented state nowMs).
Proof.
  intros Hv Hlate Hver Hday Hcount Hrecent.
  pose proof (appended_in_window nowMs (recent state) Hrecent) as Hwin.
  split.
  - unfold wellFormedState, incremented. simpl. split; [done|]. split.
    + destruct (utcDayKey_length nowMs Hv) as (k & Hk & Hlen). congruence.
    + split; [lia|]. split; [|unfold RPM_WINDOW_MS in Hlate; lia].
      eapply Forall_impl; [exact Hwin|]. intros ts.
      unfold inWindow. lia.
  - rewrite applyUtcResetAndPrune_valid by done.
    rewrite utcDayKey_valid in Hday by done. injection Hday as Hday.
    unfold incremented. simpl. rewrite Hday, String.eqb_refl, Hver.
    rewrite (filter_all _ _ Hwin).
    by rewrite slice_last_short by apply slice_last_length.
Qed.

Lemma afterRecord_faultFree fs op : faultFree fs → afterRecord fs op = [].
Proof.
  intros H. unfold afterRecord, consumed. simpl.
  repeat case_decide; by rewrite H.
Qed.

Lemma faultFree_unhindered op fs : faultFree fs → unhindered op fs.
Proof. intros H err. by rewrite H. Qed.

Lemma afterRecord_read fs fl cl :
  unhinderedAfter OpReadFile fs → unhindered OpReadFile (mkFs fl (afterRecord fs) cl).
Proof. intros H err. apply (H err). Qed.

(** X11. What a recording has written reads back: after a
    [recordQwenCompletion] at [nowMs] (later than the first minute of the
    epoch) that no file-system call fails, [readQwenLocalQuotaState] at
    the same [nowMs] returns the very state that the recording returned. *)
Theorem read_after_record stateDir nonce nowMs fs :
  validTime nowMs → RPM_WINDOW_MS < nowMs →
  unhindered OpMkdir fs → unhindered OpWriteFile fs → unhindered OpRename fs →
  unhinderedAfter OpReadFile fs →
  ∃ next fs',
    recordQwenCompletion stateDir nonce nowMs fs = (inr next, fs') ∧
    (readQwenLocalQuotaState stateDir nowMs fs').1 = inr next ∧
    files (readQwenLocalQuotaState stateDir nowMs fs').2 = files fs'.
Proof.
  intros Hv Hlate Hmk Hwr Hrn Hrd.
  destruct (recordQwenCompletion_ok stateDir nonce nowMs fs Hv Hmk Hwr Hrn)
    as (state & Hread & Hrec).
  destruct (readQwenLocalQuotaState_shape stateDir nowMs fs Hv) as
    (state' & Hread' & Hver & Hday & Hcount & Hwin);
    [unfold RPM_WINDOW_MS in Hlate; lia|].
  assert (state' = state) as -> by congruence.
  destruct (incremented_shape state nowMs Hv Hlate Hver Hday Hcount Hwin)
    as [Hwf Hidem].
  eexists _, _. split; [exact Hrec|].
  unfold readQwenLocalQuotaState.
  rewrite (eff_bind_ok _ _ _ _ _
    (readStateFromDisk_hit _ nowMs _ (incremented state nowMs)
       (afterRecord_read fs _ _ Hrd) (lookup_insert_eq _ _ _) Hwf)).
  unfold lift. by rewrite Hidem.
Qed.

Lemma read_after_record_witness :
  ∃ next fs',
    recordQwenCompletion "/state" "4711-1771934400000-9f3a" 1771934400000
      (mkFs ∅ (λ _, []) []) = (inr next, fs') ∧
    (readQwenLocalQuotaState "/state" 1771934400000 fs').1 = inr next ∧
    files (readQwenLocalQuotaState "/state" 1771934400000 fs').2 = files fs'.
Proof.
  apply read_after_record.
  - unfold validTime. vm_compute. discriminate.
  - reflexivity.
  - intros e. vm_compute. discriminate.
  - intros e. vm_compute. discriminate.
  - intros e. vm_compute. discriminate.
  - intros e. vm_compute. discriminate.
Defined.

(** X12. Completions are counted per UTC day. Of two recordings in a
    row, at [t1] and then at [t2], on a platform that fails no call, the
    second returns a [dayCount] one above the first's when [t2] is of the
    same UTC day, and a [dayCount] of 1 when it is of another day. *)
Theorem completions_counted_per_day stateDir nonce1 nonce2 t1 t2 fs :
  validTime t1 → validTime t2 → fourDigitYear t1 → fourDigitYear t2 →
  RPM_WINDOW_MS < t1 → faultFree fs →
  ∃ next1 next2 fs1 fs2,
    recordQwenCompletion stateDir nonce1 t1 fs = (inr next1, fs1) ∧
    recordQwenCompletion stateDir nonce2 t2 fs1 = (inr next2, fs2) ∧
    (Day t1 = Day t2 → dayCount next2 = dayCount next1 + 1) ∧
    (Day t1 ≠ Day t2 → dayCount next2 = 1).
Proof.
  intros Hv1 Hv2 Hy1 Hy2 Hlate Hff.
  destruct (recordQwenCompletion_ok stateDir nonce1 t1 fs Hv1)
    as (state & Hread & Hrec); try by apply faultFree_unhindered.
  destruct (readQwenLocalQuotaState_shape stateDir t1 fs Hv1) as
    (state' & Hread' & Hver & Hday & Hcount & Hwin);
    [unfold RPM_WINDOW_MS in Hlate; lia|].
  assert (state' = state) as -> by congruence.
  destruct (incremented_shape state t1 Hv1 Hlate Hver Hday Hcount Hwin)
    as [Hwf _].
  set (next1 := incremented state t1) in *.
  set (fs1 := mkFs _ (afterRecord fs) _) in Hrec.
  assert (faultFree fs1) as Hff1 by (intros op; by apply afterRecord_faultFree).
  destruct (recordQwenCompletion_ok stateDir nonce2 t2 fs1 Hv2)
    as (state2 & Hread2 & Hrec2); try by apply faultFree_unhindered.
  exists next1, (incremented state2 t2), fs1. eexists.
  split; [exact Hrec|]. split; [exact Hrec2|].
  unfold readQwenLocalQuotaState in Hread2.
  rewrite (eff_bind_ok _ _ _ _ _
    (readStateFromDisk_hit _ t2 fs1 next1
       (faultFree_unhindered _ _ Hff1) (lookup_insert_eq _ _ _) Hwf)) in Hread2.
  unfold lift in Hread2. rewrite applyUtcResetAndPrune_valid in Hread2 by done.
  injection Hread2 as <-. simpl.
  rewrite utcDayKey_four in Hday by done. injection Hday as <-.
  pose proof (utcDayKey_valid t2 Hv2) as K2.
  rewrite utcDayKey_four in K2 by done. injection K2 as <-.
  split; intros Hd.
  - rewrite (datePart_same_day t1 t2 Hd). by rewrite String.eqb_refl.
  - destruct (String.eqb_spec (datePart t1) (datePart t2)) as [Heq|]; [|done].
    destruct Hd. by apply datePart_inj.
Qed.

Lemma completions_counted_per_day_witness :
  ∃ next1 next2 fs1 fs2,
    recordQwenCompletion "/state" "a" 1771891199000 (mkFs ∅ (λ _, []) [])
      = (inr next1, fs1) ∧
    recordQwenCompletion "/state" "b" 1771891201000 fs1 = (inr next2, fs2) ∧
    dayCount next1 = 1 ∧ dayCount next2 = 1.
Proof.
  destruct (completions_counted_per_day "/state" "a" "b"
              1771891199000 1771891201000 (mkFs ∅ (λ _, []) []))
    as (next1 & next2 & fs1 & fs2 & H1 & H2 & _ & Hother).
  - unfold validTime. vm_compute. discriminate.
  - unfold validTime. vm_compute. discriminate.
  - unfold fourDigitYear. vm_compute. split; discriminate.
  - unfold fourDigitYear. vm_compute. split; discriminate.
  - reflexivity.
  - intros op. reflexivity.
  - exists next1, next2, fs1, fs2. split; [exact H1|]. split; [exact H2|]. split.
    + vm_compute in H1. injection H1 as <- _. reflexivity.
    + apply Hother. vm_compute. discriminate.
Defined.

(** *** The computed quota *)

Lemma slice_last_length_eq {A} n (xs : list A) :
  length (slice_last n xs) = (length xs `min` n)%nat.
Proof. unfold slice_last. rewrite length_drop. lia. Qed.

(** X13. The reset times of [computeQwenQuota], for a [nowMs] outside the
    years 0 to 99 and at least a day before the end of the time range.
    The call returns; the day quota resets at the UTC midnight that
    follows [nowMs]; the per-minute usage is the number of timestamps of
    the last minute, capped at [MAX_RECENT_TIMESTAMPS]; without such a
    timestamp there is no per-minute reset time, and otherwise it is one
    window after a timestamp of the last minute, hence never before
    [nowMs] and at most a minute away. *)
Theorem computeQwenQuota_reset_times s nowMs dayLimit rpmLimit :
  validTime nowMs →
  ¬ (0 ≤ YearFromTime nowMs ≤ 99) →
  nowMs + msPerDay ≤ maxTime →
  ∃ q,
    computeQwenQuota s nowMs dayLimit rpmLimit = inr q ∧
    day_resetTimeIso (day q) = isoString ((Day nowMs + 1) * msPerDay) ∧
    nowMs < (Day nowMs + 1) * msPerDay ≤ nowMs + msPerDay ∧
    0 ≤ day_used (day q) ∧
    rpm_used (rpm q) =
      Z.of_nat (length (filter (inWindow nowMs) (recent s)) `min` MAX_RECENT_TIMESTAMPS) ∧
    (filter (inWindow nowMs) (recent s) = [] → rpm_resetTimeIso (rpm q) = None) ∧
    (filter (inWindow nowMs) (recent s) ≠ [] →
       ∃ oldest,
         oldest ∈ recent s ∧ inWindow nowMs oldest ∧
         rpm_resetTimeIso (rpm q) = Some (isoString (oldest + RPM_WINDOW_MS)) ∧
         nowMs ≤ oldest + RPM_WINDOW_MS ≤ nowMs + RPM_WINDOW_MS).
Proof.
  intros Hv Hy Hmax.
  assert (nowMs < (Day nowMs + 1) * msPerDay ≤ nowMs + msPerDay) as Hmid.
  { unfold Day, msPerDay. pose proof (Z.div_mod nowMs 86400000).
    pose proof (Z.mod_pos_bound nowMs 86400000). lia. }
  unfold computeQwenQuota.
  rewrite applyUtcResetAndPrune_valid by done.
  rewrite nextUtcMidnightIso_next_day by (done || lia).
  set (kept := slice_last MAX_RECENT_TIMESTAMPS (filter (inWindow nowMs) (recent s))).
  assert (length kept =
            (length (filter (inWindow nowMs) (recent s)) `min` MAX_RECENT_TIMESTAMPS)%nat)
    as Hlen by apply slice_last_length_eq.
  change (inr ?x ≫= ?f) with (f x). cbv beta.
  change (recent {| version := _; utcDay := _; dayCount := _;
                    recent := kept; updatedAt := _ |}) with kept.
  destruct kept as [|x xs] eqn:Hkept.
  - eexists. split; [reflexivity|]. cbn [day rpm day_resetTimeIso day_used rpm_used
      rpm_resetTimeIso]. split; [done|]. split; [done|]. split; [lia|].
    split; [by rewrite <- Hlen|]. split; [done|].
    intros Hne. destruct (filter (inWindow nowMs) (recent s)); [done|].
    simpl in Hlen. unfold MAX_RECENT_TIMESTAMPS in Hlen. lia.
  - destruct (Math_min_spec x xs) as [Hin _].
    rewrite <- Hkept in Hin.
    eapply elem_of_suffix in Hin; [|apply slice_last_suffix].
    apply list_elem_of_filter in Hin as [Hwin Hin].
    assert (validTime (Math_min x xs + RPM_WINDOW_MS)) as Hv'.
    { unfold validTime, inWindow, RPM_WINDOW_MS, msPerDay, maxTime in *.
      apply Z.abs_le. apply Z.abs_le in Hv. lia. }
    rewrite (ofNumber_valid _ Hv').
    eexists. split; [reflexivity|]. cbn [day rpm day_resetTimeIso day_used rpm_used
      rpm_resetTimeIso]. split; [done|]. split; [done|]. split; [lia|].
    split; [by rewrite <- Hlen|]. split.
    + intros Hnil. rewrite Hnil in Hlen. done.
    + intros _. exists (Math_min x xs). split; [done|]. split; [done|].
      split; [done|]. unfold inWindow in Hwin. lia.
Qed.

Lemma computeQwenQuota_reset_times_witness :
  ∃ q,
    computeQwenQuota
      (mkQwenState 1 "2026-02-24" 50
         [1771934339000; 1771934370000; 1771934399000] 1771934400000)
      1771934400000 QWEN_DAILY_LIMIT QWEN_RPM_LIMIT = inr q ∧
    day_resetTimeIso (day q) = "2026-02-25T00:00:00.000Z" ∧
    rpm_used (rpm q) = 2 ∧
    rpm_resetTimeIso (rpm q) = Some "2026-02-24T12:00:30.000Z".
Proof.
  destruct (computeQwenQuota_reset_times
              (mkQwenState 1 "2026-02-24" 50
                 [1771934339000; 1771934370000; 1771934399000] 1771934400000)
              1771934400000 QWEN_DAILY_LIMIT QWEN_RPM_LIMIT)
    as (q & Hq & Hday & _ & _ & Hused & _ & _).
  - unfold validTime. vm_compute. discriminate.
  - vm_compute. intros [_ H]. by apply H.
  - vm_compute. discriminate.
  - exists q. split; [exact Hq|]. split; [rewrite Hday; reflexivity|].
    split; [rewrite Hused; reflexivity|].
    vm_compute in Hq. injection Hq as <-. reflexivity.
Defined.

End LocalQuotaMore.

Section MessageStoreMore.
Import Json MessageStore StoreShape.

Implicit Types (h : Host) (tr : list StoreIO).

Ltac store_unfold :=
  unfold iterAssistantMessages, iterAssistantMessagesForSession, getOpenCodeDbStats,
    hasJsonExtract, validateSessionIdOrThrow, openDbOrNull, getOpenCodeDbPath,
    sqlSessionExists, sqlSelectMessages, sqlSelectData, sqlGetNumber, sqlGetCanary, io,
    try_finally, try_catch, throw, lift, mbind, eff_bind, mret, eff_ret.

Ltac fallible_unfold :=
  unfold FallibleStore.iterAssistantMessages,
    FallibleStore.iterAssistantMessagesForSession, FallibleStore.getOpenCodeDbStats,
    FallibleStore.hasJsonExtract, FallibleStore.openConn, FallibleStore.run,
    FallibleStore.messageQuery.

Ltac bracketed_cases :=
  repeat match goal with
         | |- context [String.eqb ?a ?b] => destruct (String.eqb a b); simpl
         | |- context [existsSync ?h ?p] => destruct (existsSync h p); simpl
         | |- context [FallibleStore.openFails ?f] =>
             destruct (FallibleStore.openFails f); simpl
         | |- context [FallibleStore.queryFails ?f ?q] =>
             destruct (FallibleStore.queryFails f q); simpl
         | |- context [hasJsonFunctions ?h] => destruct (hasJsonFunctions h); simpl
         | |- context [countAssistantByJsonExtract ?r] =>
             destruct (countAssistantByJsonExtract r); simpl
         | |- context [existsb ?p ?l] => destruct (existsb p l); simpl
         end;
  eexists; rewrite <- ?app_assoc; (split; [reflexivity|reflexivity]).

(** On a driver that fails nothing the functions are those of
    [MessageStore]. *)
Lemma fallible_noFailures h sid (sinceMs untilMs : option Z) :
  FallibleStore.getOpenCodeDbStats FallibleStore.noFailures h = getOpenCodeDbStats h ∧
  FallibleStore.iterAssistantMessages FallibleStore.noFailures h sinceMs untilMs =
    iterAssistantMessages h sinceMs untilMs ∧
  FallibleStore.iterAssistantMessagesForSession FallibleStore.noFailures h sid
    sinceMs untilMs = iterAssistantMessagesForSession h sid sinceMs untilMs.
Proof. done. Qed.

(** X14. Every exported query keeps its connection in brackets, on every
    host, for every argument and whatever the driver fails: the events it
    adds to the trace open a connection at most once, query only an open
    connection, and end with the connection closed. When the opening
    throws there is no connection and nothing to close; when a statement
    throws, as here the one of [iterAssistantMessages], the error is
    thrown on after the connection has been closed. *)
Theorem connections_bracketed (f : FallibleStore.Failures) h sid
    (sinceMs untilMs : option Z) tr :
  (∃ evs, (FallibleStore.getOpenCodeDbStats f h tr).2 = tr ++ evs ∧
          wellBracketed false evs = true) ∧
  (∃ evs, (FallibleStore.iterAssistantMessages f h sinceMs untilMs tr).2 = tr ++ evs ∧
          wellBracketed false evs = true) ∧
  (∃ evs, (FallibleStore.iterAssistantMessagesForSession f h sid sinceMs untilMs tr).2
            = tr ++ evs ∧
          wellBracketed false evs = true) ∧
  (∀ path err,
     storeAt h path → FallibleStore.openFails f = None →
     FallibleStore.queryFails f (SqlSelectMessages None sinceMs untilMs) = Some err →
     FallibleStore.iterAssistantMessages f h sinceMs untilMs tr =
       (inl err, tr ++ [IoDbPathLookup; IoExistsSync path; IoOpen path;
                        IoQuery (SqlSelectMessages None sinceMs untilMs); IoClose])) ∧
  (∀ path err,
     storeAt h path → FallibleStore.openFails f = Some err →
     FallibleStore.iterAssistantMessages f h sinceMs untilMs tr =
       (inl err, tr ++ [IoDbPathLookup; IoExistsSync path])).
Proof.
  split; [|split; [|split; [|split]]].
  - fallible_unfold. store_unfold. bracketed_cases.
  - fallible_unfold. store_unfold. bracketed_cases.
  - fallible_unfold. store_unfold.
    destruct (String.prefix "ses_" sid); simpl.
    2: { exists []. by rewrite app_nil_r. }
    bracketed_cases.
  - intros path err (<- & Hne & Hex) Hopen Hq. fallible_unfold. store_unfold.
    apply String.eqb_neq in Hne. rewrite Hne. simpl. rewrite Hex, Hopen. simpl.
    rewrite Hq. simpl. by rewrite <- !app_assoc.
  - intros path err (<- & Hne & Hex) Hopen. fallible_unfold. store_unfold.
    apply String.eqb_neq in Hne. rewrite Hne. simpl. rewrite Hex, Hopen. simpl.
    by rewrite <- !app_assoc.
Qed.

Lemma connections_bracketed_witness :
  FallibleStore.iterAssistantMessages
    (FallibleStore.mkFailures None (λ _, Some (SqliteError "database is locked")))
    exampleHost None None [] =
  (inl (SqliteError "database is locked"),
   [IoDbPathLookup; IoExistsSync "/data/opencode/opencode.db";
    IoOpen "/data/opencode/opencode.db";
    IoQuery (SqlSelectMessages None None None); IoClose]).
Proof.
  pose proof (connections_bracketed
                (FallibleStore.mkFailures None (λ _, Some (SqliteError "database is locked")))
                exampleHost "ses_1" None None []) as (_ & _ & _ & H & _).
  apply (H "/data/opencode/opencode.db").
  - split; [reflexivity|]. split; [discriminate|reflexivity].
  - reflexivity.
  - reflexivity.
Defined.

Lemma openDbOrNull_storeAt h path tr :
  storeAt h path →
  openDbOrNull h tr = (inr (Some path), tr ++ [IoDbPathLookup; IoExistsSync path]).
Proof.
  intros (<- & Hne & Hex). store_unfold.
  apply String.eqb_neq in Hne. rewrite Hne. simpl. rewrite Hex. simpl.
  by rewrite <- !app_assoc.
Qed.

(** X15. Without a store the bulk queries answer with nothing rather than
    with an error: [iterAssistantMessages] returns no message and
    [getOpenCodeDbStats] the looked-up path with three zero counts, and
    neither opens a connection: all they do is look up the path and
    probe the file. *)
Theorem bulk_queries_without_store h (sinceMs untilMs : option Z) tr :
  noStore h →
  let probes := Forall (λ ev, ev = IoDbPathLookup ∨ ev = IoExistsSync (dbPathLookup h)) in
  (iterAssistantMessages h sinceMs untilMs tr).1 = inr [] ∧
  (getOpenCodeDbStats h tr).1 = inr (mkStats (dbPathLookup h) 0 0 0) ∧
  (∃ evs, (iterAssistantMessages h sinceMs untilMs tr).2 = tr ++ evs ∧ probes evs) ∧
  (∃ evs, (getOpenCodeDbStats h tr).2 = tr ++ evs ∧ probes evs).
Proof.
  intros Hno probes. subst probes. store_unfold.
  destruct (String.eqb_spec (dbPathLookup h) "") as [Hp|Hp]; simpl.
  - split; [done|]. split; [done|]. split; eexists; rewrite <- ?app_assoc;
      (split; [done|]);
      repeat (apply List.Forall_cons; [first [by left | by right]|]);
      apply List.Forall_nil.
  - destruct Hno as [?|Hex]; [done|]. rewrite Hex. simpl.
    split; [done|]. split; [done|]. split; eexists; rewrite <- ?app_assoc;
      (split; [done|]);
      repeat (apply List.Forall_cons; [first [by left | by right]|]);
      apply List.Forall_nil.
Qed.

Lemma bulk_queries_without_store_witness :
  (iterAssistantMessages missingStoreHost None None []).1 = inr [] ∧
  (getOpenCodeDbStats missingStoreHost []).1 =
    inr (mkStats "/data/opencode/opencode.db" 0 0 0).
Proof.
  pose proof (bulk_queries_without_store missingStoreHost None None [])
    as (H1 & H2 & _).
  - right. reflexivity.
  - split; [exact H1|exact H2].
Defined.

(** *** The order of the rows *)
















(** *** The messages returned *)















(** *** The statistics *)

Lemma countAssistant_bounds (texts : list text) :
  (length (List.filter (λ data, payloadIsAssistant (safeJsonParse data)) texts)
   ≤ length texts)%nat.
Proof.
  induction texts as [|t texts IH]; simpl; [done|].
  destruct (payloadIsAssistant _); simpl; lia.
Qed.

(** X18. The statistics by row scan. With the store in place and opened,
    when the canary of [hasJsonExtract] does not come back (the SQLite
    has no JSON functions, or the statement fails for any other reason)
    and the three plain statements do not fail, [getOpenCodeDbStats]
    returns the path, the numbers of session and message rows, and as
    assistant count the number of rows whose payload [JSON.parse] reads
    as a value with the role "assistant"; that count lies between 0 and
    the number of message rows; the connection is closed. *)
Theorem getOpenCodeDbStats_scan (f : FallibleStore.Failures) h path tr :
  storeAt h path →
  FallibleStore.openFails f = None →
  FallibleStore.queryFails f SqlCountSessions = None →
  FallibleStore.queryFails f SqlCountMessages = None →
  FallibleStore.queryFails f SqlSelectData = None →
  (hasJsonFunctions h = false ∨ FallibleStore.queryFails f SqlJsonCanary ≠ None) →
  let db := databaseAt h path in
  let scanned :=
    Z.of_nat (length (List.filter (λ data, payloadIsAssistant (safeJsonParse data))
                        (row_data <$> message db))) in
  0 ≤ scanned ≤ Z.of_nat (length (message db)) ∧
  FallibleStore.getOpenCodeDbStats f h tr =
    (inr (mkStats path (Z.of_nat (length (session db)))
            (Z.of_nat (length (message db))) scanned),
     tr ++ [IoDbPathLookup; IoExistsSync path; IoOpen path;
            IoQuery SqlCountSessions; IoQuery SqlCountMessages;
            IoQuery SqlJsonCanary; IoQuery SqlSelectData; IoClose]).
Proof.
  intros Hst Hopen Hs Hm Hd Hcanary db scanned. split.
  - subst scanned. pose proof (countAssistant_bounds (row_data <$> message db)) as Hb.
    rewrite length_fmap in Hb. lia.
  - unfold FallibleStore.getOpenCodeDbStats.
    rewrite (eff_bind_ok _ _ _ _ _ (openDbOrNull_storeAt h path tr Hst)).
    fallible_unfold. rewrite Hopen, Hs, Hm, Hd. store_unfold. simpl. fold db.
    destruct (FallibleStore.queryFails f SqlJsonCanary) as [err|] eqn:Hc; simpl.
    + by rewrite <- !app_assoc.
    + destruct Hcanary as [->|?]; [|done]. simpl. by rewrite <- !app_assoc.
Qed.

Lemma getOpenCodeDbStats_scan_witness :
  (FallibleStore.getOpenCodeDbStats
     (FallibleStore.mkFailures None
        (λ sql, match sql with
                | SqlJsonCanary => Some (SqliteError "disk I/O error")
                | _ => None
                end))
     exampleHost []).1 =
  inr (mkStats "/data/opencode/opencode.db" 1 3 1).
Proof.
  pose proof (getOpenCodeDbStats_scan
                (FallibleStore.mkFailures None
                   (λ sql, match sql with
                           | SqlJsonCanary => Some (SqliteError "disk I/O error")
                           | _ => None
                           end))
                exampleHost "/data/opencode/opencode.db" []) as H.
  destruct H as [_ H].
  - split; [reflexivity|]. split; [discriminate|reflexivity].
  - reflexivity.
  - reflexivity.
  - reflexivity.
  - reflexivity.
  - right. discriminate.
  - rewrite H. reflexivity.
Defined.

End MessageStoreMore.
